(** * CheckpointStorage: a reference-counted store over a transactional engine

    Shallow embedding of [packages/arb-avm-cpp/avm/src/checkpointstorage.cpp].

    - [std::string] and the key bytes are [string] (a sequence of 8-bit
      characters);
    - [int] is a [Z] in the 32-bit signed range, its arithmetic written with
      the two's-complement wrap-around [wrap_int];
    - [rocksdb::Status] is its code;
    - the engine (RocksDB's [TransactionDB]) is reached only through the calls
      the file makes: [Get] on the database, and [BeginTransaction], [Put],
      [Delete], [Commit] and the deletion of the transaction object.  A
      member function is a program over these calls ([Prog]); it is run
      against any engine ([Handler]), against the engine that never fails
      ([rocks]) and, call by call, interleaved with other programs
      ([run_schedule]). *)

From Stdlib Require Import ZArith Ascii String List Lia.
From stdpp Require Import base option list gmap strings fin_maps.

Local Open Scope Z_scope.
Local Open Scope string_scope.

(** ** Build parameters *)

(** [memcpy] of an [int] copies its object representation: the order of the
    four bytes is the machine's. *)
Inductive ByteOrder : Set := LittleEndian | BigEndian.

(** [NDEBUG] removes the [assert]s of [saveValueToDb] and [deleteValueFromDb]. *)
Class Build : Set := { NDEBUG : bool; byte_order : ByteOrder }.

(** ** [rocksdb::Status] *)

Inductive Status : Set :=
| kOk | kNotFound | kCorruption | kNotSupported | kInvalidArgument | kIOError
| kMergeInProgress | kIncomplete | kShutdownInProgress | kTimedOut | kAborted
| kBusy | kExpired | kTryAgain.

Definition ok (s : Status) : bool :=
  match s with kOk => true | _ => false end.

#[global] Instance Status_eq_dec : EqDecision Status.
Proof. solve_decision. Defined.

(** ** [int] *)

Definition INT_MIN : Z := - 2 ^ 31.
Definition INT_MAX : Z := 2 ^ 31 - 1.

Definition in_int (z : Z) : Prop := INT_MIN <= z <= INT_MAX.

(** The 32-bit two's-complement value of [z]. *)
Definition wrap_int (z : Z) : Z := (z + 2 ^ 31) mod 2 ^ 32 - 2 ^ 31.

(** [a + b] and [a - b] on [int].  Where the exact result leaves the range
    (which the language leaves undefined) the result is the one of the
    machine's 32-bit addition: it wraps around. *)
Definition int_add (a b : Z) : Z := wrap_int (a + b).
Definition int_sub (a b : Z) : Z := wrap_int (a - b).

(** ** Bytes of an [int] *)

Definition byte_of_Z (z : Z) : ascii := ascii_of_N (Z.to_N (z mod 256)).
Definition Z_of_byte (a : ascii) : Z := Z.of_N (N_of_ascii a).

(** The object representation of [count]: the four base-256 digits of its
    two's-complement value [count mod 2 ^ 32], lowest first. *)
Definition int_bytes_le (count : Z) : list ascii :=
  let u := count mod 2 ^ 32 in
  [ byte_of_Z u;
    byte_of_Z (u / 2 ^ 8);
    byte_of_Z (u / 2 ^ 16);
    byte_of_Z (u / 2 ^ 24) ].

Definition int_of_bytes_le (b0 b1 b2 b3 : ascii) : Z :=
  wrap_int (Z_of_byte b0 + 2 ^ 8 * Z_of_byte b1
            + 2 ^ 16 * Z_of_byte b2 + 2 ^ 24 * Z_of_byte b3).

(** [memcpy(tmpbuf.data(), &count, sizeof(count))] *)
Definition int_to_mem `{Build} (count : Z) : list ascii :=
  match byte_order with
  | LittleEndian => int_bytes_le count
  | BigEndian => rev (int_bytes_le count)
  end.

(** [memcpy(&ref_count, c_string, sizeof(ref_count))] on four bytes. *)
Definition int_of_mem `{Build} (b0 b1 b2 b3 : ascii) : Z :=
  match byte_order with
  | LittleEndian => int_of_bytes_le b0 b1 b2 b3
  | BigEndian => int_of_bytes_le b3 b2 b1 b0
  end.

(** ** What ends a call other than a return *)

Inductive Crash : Set :=
| AssertionFailed      (* a failed [assert]: the process aborts *)
| OutOfRange           (* [std::out_of_range] thrown by [substr] *)
| OutOfBoundsRead      (* [memcpy] past the end of the string's buffer *)
| NullDereference.     (* a member call through a null pointer *)

Inductive result (A : Type) : Type :=
| Returns (a : A)
| Crashes (c : Crash).
Arguments Returns {A} a.
Arguments Crashes {A} c.

(** ** [std::string] operations used by the codec *)

(** [s.substr(pos, count)]: throws when [pos > s.size()], and otherwise is
    the [count] characters from position [pos] on, or as many as there are. *)
Definition substr (s : string) (pos count : nat) : result string :=
  if (pos <=? String.length s)%nat
  then Returns (String.substring pos count s)
  else Crashes OutOfRange.

(** [value.insert(value.begin(), first, last)] *)
Definition insert_begin (bytes : list ascii) (value : string) : string :=
  string_of_list_ascii bytes ++ value.

(** Reading an [int] at [s.c_str()]: the buffer holds the characters of [s]
    and one terminating NUL. *)
Definition memcpy_int `{Build} (s : string) : result Z :=
  match s with
  | String b0 (String b1 (String b2 (String b3 _))) =>
      Returns (int_of_mem b0 b1 b2 b3)
  | String b0 (String b1 (String b2 EmptyString)) =>
      Returns (int_of_mem b0 b1 b2 zero)
  | _ => Crashes OutOfBoundsRead
  end.

(** ** The record codec *)

Definition serializeCountAndValue `{Build} (count : Z) (value : string)
  : string :=
  let tmpbuf := int_to_mem count in
  insert_begin tmpbuf value.

Definition parseCountAndValue `{Build} (string_value : string)
  : result (Z * string) :=
  if decide (string_value = "") then Returns (0, "")
  else
    match memcpy_int string_value with
    | Crashes c => Crashes c
    | Returns ref_count =>
        match substr string_value 4 (String.length string_value - 1) with
        | Crashes c => Crashes c
        | Returns saved_value => Returns (ref_count, saved_value)
        end
    end.

(** ** Calls to the engine *)

(** A transaction object, as [BeginTransaction] returns it. *)
Definition Txn : Set := nat.

(** The calls this file makes, each with the type of what it gives back. *)
Inductive Call : Type -> Type :=
| DbGet (key : string) : Call (Status * string)
    (* db->Get(read_options, key, &value) *)
| BeginTransaction : Call (option Txn)
    (* db->BeginTransaction(writeOptions); [None] is a null pointer *)
| TxnPut (t : Txn) (key value : string) : Call Status
| TxnDelete (t : Txn) (key : string) : Call Status
| TxnCommit (t : Txn) : Call Status
| TxnFree (t : Txn) : Call unit.
    (* delete transaction *)

(** The same calls without their result type, for traces. *)
Inductive Event : Set :=
| EGet (key : string)
| EBegin
| EPut (t : Txn) (key value : string)
| EDelete (t : Txn) (key : string)
| ECommit (t : Txn)
| EFree (t : Txn).

Definition event_of {X} (c : Call X) : Event :=
  match c with
  | DbGet key => EGet key
  | BeginTransaction => EBegin
  | TxnPut t key value => EPut t key value
  | TxnDelete t key => EDelete t key
  | TxnCommit t => ECommit t
  | TxnFree t => EFree t
  end.

(** ** Programs over the engine *)

Inductive Prog (R : Type) : Type :=
| Ret (r : R)
| Stop (c : Crash)
| Vis {X : Type} (c : Call X) (k : X -> Prog R).
Arguments Ret {R} r.
Arguments Stop {R} c.
Arguments Vis {R X} c k.

Fixpoint bind {A B} (p : Prog A) (f : A -> Prog B) : Prog B :=
  match p with
  | Ret a => f a
  | Stop c => Stop c
  | Vis c k => Vis c (fun x => bind (k x) f)
  end.

#[global] Instance Prog_ret : MRet Prog := fun _ r => Ret r.
#[global] Instance Prog_bind : MBind Prog := fun _ _ f p => bind p f.

Definition call {X} (c : Call X) : Prog X := Vis c Ret.

Definition lift {A} (r : result A) : Prog A :=
  match r with
  | Returns a => Ret a
  | Crashes c => Stop c
  end.

(** [assert(cond)] *)
Definition assert `{Build} (cond : bool) : Prog unit :=
  if NDEBUG then Ret tt
  else if cond then Ret tt else Stop AssertionFailed.

(** [transaction->...] on the pointer [BeginTransaction] returned. *)
Definition deref (transaction : option Txn) : Prog Txn :=
  match transaction with
  | Some t => Ret t
  | None => Stop NullDereference
  end.

(** ** Result structures *)

Module GetResults.
Record t : Set := mk {
  reference_count : Z;
  status : Status;
  stored_value : string
}.
End GetResults.

Module SaveResults.
Record t : Set := mk {
  reference_count : Z;
  status : Status;
  storage_key : string
}.
End SaveResults.

Module DeleteResults.
Record t : Set := mk {
  reference_count : Z;
  status : Status
}.
End DeleteResults.

Abbreviation GetResults := GetResults.t.
Abbreviation SaveResults := SaveResults.t.
Abbreviation DeleteResults := DeleteResults.t.

(** ** Member functions of [CheckpointStorage] *)

Section Members.
Context `{Build}.

Definition getTransaction : Prog (option Txn) :=
  call BeginTransaction.

Definition saveValueToDb (value key : string) : Prog Status :=
  transaction ← getTransaction;
  assert (bool_decide (is_Some transaction));;
  t ← deref transaction;
  put_status ← call (TxnPut t key value);
  assert (ok put_status);;
  commit_status ← call (TxnCommit t);
  assert (ok commit_status);;
  call (TxnFree t);;
  Ret commit_status.

Definition deleteValueFromDb (key : string) : Prog Status :=
  transaction ← getTransaction;
  assert (bool_decide (is_Some transaction));;
  t ← deref transaction;
  delete_status ← call (TxnDelete t key);
  assert (ok delete_status);;
  commit_status ← call (TxnCommit t);
  assert (ok commit_status);;
  call (TxnFree t);;
  Ret commit_status.

Definition saveValueWithRefCount (updated_ref_count : Z)
    (hash_key value : string) : Prog SaveResults :=
  let updated_entry := serializeCountAndValue updated_ref_count value in
  let key_str := hash_key in
  status ← saveValueToDb updated_entry key_str;
  if ok status
  then Ret (SaveResults.mk updated_ref_count status hash_key)
  else Ret (SaveResults.mk 0 kNotFound hash_key).

Definition getStoredValue (hash_key : string) : Prog GetResults :=
  let key_str := hash_key in
  '(get_status, return_value) ← call (DbGet key_str);
  if ok get_status then
    tuple ← lift (parseCountAndValue return_value);
    Ret (GetResults.mk tuple.1 get_status tuple.2)
  else
    let unsuccessful := kNotFound in
    Ret (GetResults.mk 0 unsuccessful "").

Definition incrementReference (hash_key : string) : Prog SaveResults :=
  results ← getStoredValue hash_key;
  if ok (GetResults.status results) then
    let updated_count := int_add (GetResults.reference_count results) 1 in
    saveValueWithRefCount updated_count hash_key
      (GetResults.stored_value results)
  else
    Ret (SaveResults.mk 0 (GetResults.status results) hash_key).

Definition saveValue (value hash_key : string) : Prog SaveResults :=
  results ← getStoredValue hash_key;
  if ok (GetResults.status results) then
    if decide (GetResults.stored_value results ≠ value) then
      Ret (SaveResults.mk (-1) kInvalidArgument hash_key)
    else
      let ref_count := int_add (GetResults.reference_count results) 1 in
      saveValueWithRefCount ref_count hash_key value
  else
    let ref_count := 1 in
    saveValueWithRefCount ref_count hash_key value.

Definition deleteStoredValue (hash_key : string) : Prog DeleteResults :=
  results ← getStoredValue hash_key;
  if ok (GetResults.status results) then
    let value := GetResults.stored_value results in
    if (GetResults.reference_count results <? 2)%Z then
      delete_status ← deleteValueFromDb hash_key;
      Ret (DeleteResults.mk 0 delete_status)
    else
      let updated_ref_count :=
        int_sub (GetResults.reference_count results) 1 in
      update_result ← saveValueWithRefCount updated_ref_count hash_key value;
      Ret (DeleteResults.mk updated_ref_count
             (SaveResults.status update_result))
  else
    Ret (DeleteResults.mk 0 kNotFound).

End Members.

(** ** Running a program against an engine *)

(** An engine answers each call from its state. *)
Definition Handler (S : Type) : Type := forall X, Call X -> S -> X * S.

Fixpoint run {S R} (h : Handler S) (p : Prog R) (s : S) : result R * S :=
  match p with
  | Ret r => (Returns r, s)
  | Stop c => (Crashes c, s)
  | Vis c k => let '(x, s') := h _ c s in run h (k x) s'
  end.

(** The calls a run makes, in order. *)
Fixpoint trace {S R} (h : Handler S) (p : Prog R) (s : S) : list Event :=
  match p with
  | Vis c k => let '(x, s') := h _ c s in event_of c :: trace h (k x) s'
  | _ => []
  end.

(** ** The engine that never fails *)

Inductive Write : Set :=
| WPut (key value : string)
| WDelete (key : string).

(** The committed records, the write batch of every live transaction object
    and the next transaction object to hand out. *)
Record Rocks : Type := mkRocks {
  committed : gmap string string;
  open_txns : gmap Txn (list Write);
  next_txn : Txn
}.

Definition apply_write (db : gmap string string) (w : Write)
  : gmap string string :=
  match w with
  | WPut key value => <[key := value]> db
  | WDelete key => delete key db
  end.

Definition apply_batch (batch : list Write) (db : gmap string string)
  : gmap string string :=
  foldl apply_write db batch.

Definition buffer (t : Txn) (w : Write) (s : Rocks) : Status * Rocks :=
  match open_txns s !! t with
  | Some batch =>
      (kOk, mkRocks (committed s)
                    (<[t := (batch ++ [w])%list]> (open_txns s))
                    (next_txn s))
  | None => (kInvalidArgument, s)
  end.

(** [Get] reads committed records only; [Put] and [Delete] go to the write
    batch of their transaction; [Commit] applies the batch in one step.  The
    locks two live transactions would contend for are not part of the
    model: the member functions keep at most one transaction alive per
    caller, and it holds a single write. *)
Definition rocks : Handler Rocks := fun X c =>
  match c in Call X return Rocks -> X * Rocks with
  | DbGet key => fun s =>
      match committed s !! key with
      | Some value => ((kOk, value), s)
      | None => ((kNotFound, ""), s)
      end
  | BeginTransaction => fun s =>
      (Some (next_txn s),
       mkRocks (committed s)
               (<[next_txn s := []]> (open_txns s))
               (S (next_txn s)))
  | TxnPut t key value => buffer t (WPut key value)
  | TxnDelete t key => buffer t (WDelete key)
  | TxnCommit t => fun s =>
      match open_txns s !! t with
      | Some batch =>
          (kOk, mkRocks (apply_batch batch (committed s))
                        (<[t := []]> (open_txns s)) (next_txn s))
      | None => (kInvalidArgument, s)
      end
  | TxnFree t => fun s =>
      (tt, mkRocks (committed s) (delete t (open_txns s)) (next_txn s))
  end.

Definition rocks_new (db : gmap string string) : Rocks := mkRocks db ∅ 0%nat.

(** ** Interleaved callers *)

(** One call of a caller against the shared engine. *)
Definition step_thread {R} (p : Prog R) (s : Rocks) : Prog R * Rocks :=
  match p with
  | Vis c k => let '(x, s') := rocks _ c s in (k x, s')
  | _ => (p, s)
  end.

(** A schedule names, call by call, the caller that moves next. *)
Fixpoint run_schedule {R} (schedule : list nat) (threads : list (Prog R))
    (s : Rocks) : list (Prog R) * Rocks :=
  match schedule with
  | [] => (threads, s)
  | i :: schedule' =>
      match threads !! i with
      | Some p =>
          let '(p', s') := step_thread p s in
          run_schedule schedule' (<[i := p']> threads) s'
      | None => run_schedule schedule' threads s
      end
  end.

Definition returned {R} (p : Prog R) : option R :=
  match p with
  | Ret r => Some r
  | _ => None
  end.

(** ** Construction and destruction *)

(** The databases on disk, by path. *)
Abbreviation Disk := (gmap string (gmap string string)).

(** [TransactionDB::Open(options, txn_options, path, &db)] *)
Definition TransactionDB_Open (create_if_missing : bool) (path : string)
    (disk : Disk) : Status * option Rocks * Disk :=
  match disk !! path with
  | Some db => (kOk, Some (rocks_new db), disk)
  | None =>
      if create_if_missing
      then (kOk, Some (rocks_new ∅), <[path := ∅]> disk)
      else (kInvalidArgument, None, disk)
  end.

(** [db->Close()]: the committed records are what the path holds. *)
Definition TransactionDB_Close (db : Rocks) (path : string) (disk : Disk)
  : Disk :=
  <[path := committed db]> disk.

(** [DestroyDB(path, options)]: destroys the contents of the database. *)
Definition DestroyDB (path : string) (disk : Disk) : Disk :=
  delete path disk.

Record CheckpointStorage : Type := mkCheckpointStorage {
  txn_db : option Rocks;
  txn_db_path : string
}.

(** [CheckpointStorage::CheckpointStorage(std::string db_path)]; the status
    of [Open] is dropped. *)
Definition CheckpointStorage_new (db_path : string) (disk : Disk)
  : CheckpointStorage * Disk :=
  let create_if_missing := true in
  let txn_db_path := db_path in
  let '(s, db, disk') :=
    TransactionDB_Open create_if_missing txn_db_path disk in
  (mkCheckpointStorage db txn_db_path, disk').

(** [CheckpointStorage::~CheckpointStorage()] *)
Definition CheckpointStorage_delete (this : CheckpointStorage) (disk : Disk)
  : result Disk :=
  match txn_db this with
  | Some db =>
      let disk1 := TransactionDB_Close db (txn_db_path this) disk in
      (* txn_db.reset() *)
      Returns (DestroyDB (txn_db_path this) disk1)
  | None => Crashes NullDereference
  end.

(** A member function called on a store. *)
Definition method {R} (p : Prog R) (this : CheckpointStorage)
  : result R * CheckpointStorage :=
  match txn_db this with
  | Some db =>
      let '(r, db') := run rocks p db in
      (r, mkCheckpointStorage (Some db') (txn_db_path this))
  | None => (Crashes NullDereference, this)
  end.

(** ** Sequences of calls *)

Inductive Op : Set :=
| Save (key value : string)
| IncrementReference (key : string)
| Delete (key : string)
| Get (key : string).

Definition exec `{Build} (s : Rocks) (op : Op) : Rocks :=
  match op with
  | Save key value => (run rocks (saveValue value key) s).2
  | IncrementReference key => (run rocks (incrementReference key) s).2
  | Delete key => (run rocks (deleteStoredValue key) s).2
  | Get key => (run rocks (getStoredValue key) s).2
  end.

Definition exec_all `{Build} (ops : list Op) (s : Rocks) : Rocks :=
  foldl exec s ops.

(** A release build for x86. *)
#[global] Instance x86_release : Build :=
  {| NDEBUG := true; byte_order := LittleEndian |}.

(** The engine after one more transaction that left [db] committed. *)
Definition after_txn (db : gmap string string) (s : Rocks) : Rocks :=
  mkRocks db
          (delete (next_txn s) (<[next_txn s := []]> (open_txns s)))
          (S (next_txn s)).

(** ** Shapes of traces *)

Definition is_write_to (key : string) (t : Txn) (e : Event) : Prop :=
  (exists value, e = EPut t key value) \/ e = EDelete t key.

(** The lookup of [key] comes first, on the database; whatever follows is
    the beginning of one transaction that holds one write to [key]. *)
Definition lookup_then_txn (key : string) (tr : list Event) : Prop :=
  exists rest t w,
    tr = EGet key :: rest
    /\ is_write_to key t w
    /\ rest `prefix_of` [EBegin; w; ECommit t; EFree t].

(** ** Read and write as one unit *)

(** Two callers whose read and write were each one unit of work would leave,
    however their calls interleave, the records that one of the two orders
    of running them one after the other leaves. *)
Definition read_write_atomic {R} (p q : Prog R) (s : Rocks) : Prop :=
  forall schedule threads' s',
    run_schedule schedule [p; q] s = (threads', s') ->
    Forall (fun t => is_Some (returned t)) threads' ->
    committed s' = committed (run rocks q (run rocks p s).2).2
    \/ committed s' = committed (run rocks p (run rocks q s).2).2.

(** ** Engine failures *)

(** An engine whose [Get], [Put], [Delete] and [Commit] all fail with
    [IOError]. *)
Definition io_error_engine : Handler unit := fun X c =>
  match c in Call X return unit -> X * unit with
  | DbGet key => fun s => ((kIOError, ""), s)
  | BeginTransaction => fun s => (Some 0%nat, s)
  | TxnPut t key value => fun s => (kIOError, s)
  | TxnDelete t key => fun s => (kIOError, s)
  | TxnCommit t => fun s => (kIOError, s)
  | TxnFree t => fun s => (tt, s)
  end.

(** The call [p] ends by returning a result that carries [status]. *)
Definition surfaces {S R} (status_of : R -> Status) (h : Handler S)
    (p : Prog R) (s : S) (status : Status) : Prop :=
  exists r, (run h p s).1 = Returns r /\ status_of r = status.

(** ** Records after the store is closed *)

Definition durably_present (after : result Disk) (path key entry : string)
  : Prop :=
  exists disk db,
    after = Returns disk /\ disk !! path = Some db /\ db !! key = Some entry.

(** ** Reference counts of the stored records *)

Definition refcounts_positive `{Build} (db : gmap string string) : Prop :=
  forall key entry,
    db !! key = Some entry ->
    exists count value,
      parseCountAndValue entry = Returns (count, value) /\ 1 <= count.

(** Every stored record is the serialization of a count between 1 and [n]. *)
Definition refcounts_bounded `{Build} (n : Z) (db : gmap string string) : Prop :=
  forall key entry,
    db !! key = Some entry ->
    exists count value,
      entry = serializeCountAndValue count value /\ 1 <= count <= n.

(** The call [op] does not add one to a count that is already [INT_MAX]. *)
Definition increments_below_max `{Build} (s : Rocks) (op : Op) : Prop :=
  match op with
  | Save key _ | IncrementReference key =>
      forall entry count value,
        committed s !! key = Some entry ->
        parseCountAndValue entry = Returns (count, value) ->
        count < INT_MAX
  | Delete _ | Get _ => True
  end.

(** ** Calls and their keys *)

Definition key_of (op : Op) : string :=
  match op with
  | Save key _ | IncrementReference key | Delete key | Get key => key
  end.

(** [op] adds one reference to the record of [key] that holds [value]. *)
Definition adds_reference (key value : string) (op : Op) : Prop :=
  op = Save key value \/ op = IncrementReference key.

Definition crashed {A} (r : result A) : bool :=
  match r with
  | Crashes _ => true
  | Returns _ => false
  end.

(** The call [op] ends by a crash rather than by returning. *)
Definition exec_crashes `{Build} (s : Rocks) (op : Op) : bool :=
  match op with
  | Save key value => crashed (run rocks (saveValue value key) s).1
  | IncrementReference key => crashed (run rocks (incrementReference key) s).1
  | Delete key => crashed (run rocks (deleteStoredValue key) s).1
  | Get key => crashed (run rocks (getStoredValue key) s).1
  end.

(** Every stored record is the serialization of some 32-bit count. *)
Definition well_formed `{Build} (db : gmap string string) : Prop :=
  forall key entry,
    db !! key = Some entry ->
    exists count value,
      entry = serializeCountAndValue count value /\ in_int count.

(** The record under the key of [op] after [op], when it was [before]. *)
Definition entry_after `{Build} (op : Op) (before : option string)
  : option string :=
  let db : gmap string string :=
    match before with
    | Some entry => {[ key_of op := entry ]}
    | None => ∅
    end in
  committed (exec (rocks_new db) op) !! key_of op.

(** An engine that holds [entry] under every key and fails every [Commit]
    with [IOError]. *)
Definition commit_failing_engine (entry : string) : Handler unit := fun X c =>
  match c in Call X return unit -> X * unit with
  | DbGet key => fun s => ((kOk, entry), s)
  | BeginTransaction => fun s => (Some 0%nat, s)
  | TxnPut t key value => fun s => (kOk, s)
  | TxnDelete t key => fun s => (kOk, s)
  | TxnCommit t => fun s => (kIOError, s)
  | TxnFree t => fun s => (tt, s)
  end.

(** * Properties *)

(** ** The codec *)

Lemma Z_of_byte_of_Z (z : Z) : Z_of_byte (byte_of_Z z) = z mod 256.
Proof.
  unfold Z_of_byte, byte_of_Z.
  assert (0 <= z mod 256 < 256) as Hr by (apply Z.mod_pos_bound; lia).
  rewrite N_ascii_embedding; lia.
Qed.

Lemma base256_digits (u : Z) :
  0 <= u < 2 ^ 32 ->
  u mod 256 + 2 ^ 8 * ((u / 2 ^ 8) mod 256)
  + 2 ^ 16 * ((u / 2 ^ 16) mod 256) + 2 ^ 24 * ((u / 2 ^ 24) mod 256) = u.
Proof.
  intros Hu.
  change (2 ^ 16) with (2 ^ 8 * 2 ^ 8).
  change (2 ^ 24) with (2 ^ 8 * 2 ^ 8 * 2 ^ 8).
  rewrite <- !Z.div_div by lia.
  change (2 ^ 8) with 256.
  pose proof (Z.div_mod u 256 ltac:(lia)).
  pose proof (Z.div_mod (u / 256) 256 ltac:(lia)).
  pose proof (Z.div_mod (u / 256 / 256) 256 ltac:(lia)).
  assert (u / 256 / 256 / 256 < 256).
  { rewrite !Z.div_div by lia. apply Z.div_lt_upper_bound; lia. }
  assert (0 <= u / 256 / 256 / 256) by (repeat apply Z.div_pos; lia).
  rewrite (Z.mod_small (u / 256 / 256 / 256)) by lia.
  lia.
Qed.

Lemma wrap_int_mod (z : Z) : in_int z -> wrap_int (z mod 2 ^ 32) = z.
Proof.
  unfold in_int, INT_MIN, INT_MAX, wrap_int. intros Hz.
  rewrite Zplus_mod_idemp_l.
  rewrite Z.mod_small; lia.
Qed.

Lemma wrap_int_small (z : Z) : in_int z -> wrap_int z = z.
Proof.
  unfold in_int, INT_MIN, INT_MAX, wrap_int. intros Hz.
  rewrite Z.mod_small; lia.
Qed.

Lemma int_of_bytes_le_bytes (count : Z) :
  in_int count ->
  match int_bytes_le count with
  | [b0; b1; b2; b3] => int_of_bytes_le b0 b1 b2 b3 = count
  | _ => False
  end.
Proof.
  intros Hc. unfold int_bytes_le, int_of_bytes_le. cbv zeta.
  rewrite !Z_of_byte_of_Z.
  rewrite base256_digits by (apply Z.mod_pos_bound; lia).
  by apply wrap_int_mod.
Qed.

Lemma int_mem_roundtrip `{Build} (count : Z) :
  in_int count ->
  exists b0 b1 b2 b3,
    int_to_mem count = [b0; b1; b2; b3] /\ int_of_mem b0 b1 b2 b3 = count.
Proof.
  intros Hc. pose proof (int_of_bytes_le_bytes count Hc) as Hle.
  unfold int_to_mem, int_of_mem.
  remember (int_bytes_le count) as bytes eqn:Hbytes.
  unfold int_bytes_le in Hbytes. cbv zeta in Hbytes. subst bytes.
  destruct byte_order; cbn [rev app]; eauto 10.
Qed.

Lemma substring_all (s : string) (n : nat) :
  (String.length s <= n)%nat -> substring 0 n s = s.
Proof.
  revert n. induction s as [|c s IH]; intros [|n] Hn; cbn in *; try done; try lia.
  f_equal. apply IH. lia.
Qed.

Lemma parse_framed `{Build} (b0 b1 b2 b3 : ascii) (value : string) :
  parseCountAndValue (String b0 (String b1 (String b2 (String b3 value))))
  = Returns (int_of_mem b0 b1 b2 b3, value).
Proof.
  unfold parseCountAndValue. rewrite decide_False by done.
  cbn [memcpy_int]. unfold substr. cbn [String.length].
  replace (4 <=? S (S (S (S (String.length value)))))%nat with true
    by (symmetry; apply Nat.leb_le; lia).
  cbn [substring Nat.sub]. rewrite substring_all by lia. done.
Qed.

Lemma parse_serialize `{Build} (count : Z) (value : string) :
  in_int count ->
  parseCountAndValue (serializeCountAndValue count value)
  = Returns (count, value).
Proof.
  intros Hc. destruct (int_mem_roundtrip count Hc) as (b0 & b1 & b2 & b3 & Hb & Hi).
  unfold serializeCountAndValue, insert_begin. rewrite Hb.
  change (string_of_list_ascii [b0; b1; b2; b3] ++ value)
    with (String b0 (String b1 (String b2 (String b3 value)))).
  rewrite parse_framed. by rewrite Hi.
Qed.

Lemma length_int_to_mem `{Build} (count : Z) : length (int_to_mem count) = 4%nat.
Proof. unfold int_to_mem. by destruct byte_order. Qed.

Lemma length_string_of_list_ascii (l : list ascii) :
  String.length (string_of_list_ascii l) = length l.
Proof. induction l; cbn; congruence. Qed.

Lemma length_string_app (s1 s2 : string) :
  String.length (s1 ++ s2) = (String.length s1 + String.length s2)%nat.
Proof.
  induction s1 as [|c s1 IH]; [done|].
  change (String c s1 ++ s2) with (String c (s1 ++ s2)). cbn. congruence.
Qed.

(** C8: a record is serialized as the four bytes of the reference count
    followed at once by the bytes of the value (nothing between them, no
    length field), and parsing the serialization of (count, value) gives
    back (count, value), for every 32-bit count and every value, the empty
    one included. *)
Theorem C8_codec_roundtrip `{Build} (count : Z) (value : string) :
  in_int count ->
  serializeCountAndValue count value
    = string_of_list_ascii (int_to_mem count) ++ value
  /\ length (int_to_mem count) = 4%nat
  /\ String.length (serializeCountAndValue count value)
     = (4 + String.length value)%nat
  /\ parseCountAndValue (serializeCountAndValue count value)
     = Returns (count, value)
  /\ parseCountAndValue (serializeCountAndValue count "") = Returns (count, "").
Proof.
  intros Hc. split; [done|]. split; [apply length_int_to_mem|].
  split.
  - unfold serializeCountAndValue, insert_begin.
    by rewrite length_string_app, length_string_of_list_ascii, length_int_to_mem.
  - split; by apply parse_serialize.
Qed.

Lemma C8_codec_roundtrip_witness :
  in_int 3
  /\ parseCountAndValue (serializeCountAndValue 3 "blob") = Returns (3, "blob").
Proof.
  assert (in_int 3) as Hc by (unfold in_int, INT_MIN, INT_MAX; lia).
  split; [exact Hc|].
  exact (proj1 (proj2 (proj2 (proj2 (C8_codec_roundtrip 3 "blob" Hc))))).
Defined.

(** ** Running programs *)

Lemma run_bind {S A B} (h : Handler S) (p : Prog A) (f : A -> Prog B) (s : S) :
  run h (p ≫= f) s
  = match run h p s with
    | (Returns a, s') => run h (f a) s'
    | (Crashes c, s') => (Crashes c, s')
    end.
Proof.
  unfold mbind, Prog_bind. revert s.
  induction p as [a|c|X c k IH]; intros s; cbn; [done..|].
  destruct (h X c s) as [x s']. apply IH.
Qed.

Lemma trace_bind {S A B} (h : Handler S) (p : Prog A) (f : A -> Prog B) (s : S) :
  trace h (p ≫= f) s
  = (trace h p s ++ match run h p s with
                    | (Returns a, s') => trace h (f a) s'
                    | (Crashes c, s') => []
                    end)%list.
Proof.
  unfold mbind, Prog_bind. revert s.
  induction p as [a|c|X c k IH]; intros s; cbn; [done..|].
  destruct (h X c s) as [x s']. cbn. f_equal. apply IH.
Qed.

Lemma assert_true `{Build} : assert true = Ret tt.
Proof. unfold assert. by destruct NDEBUG. Qed.

(** ** The member functions on the engine that never fails *)

Section OnRocks.
Context `{Build}.

Lemma run_saveValueToDb (value key : string) (s : Rocks) :
  run rocks (saveValueToDb value key) s
  = (Returns kOk, after_txn (<[key := value]> (committed s)) s).
Proof.
  unfold saveValueToDb, getTransaction, call. cbn.
  rewrite assert_true. cbn. unfold buffer. cbn.
  rewrite lookup_insert_eq. cbn. rewrite assert_true. cbn.
  rewrite lookup_insert_eq. cbn. rewrite assert_true. cbn.
  unfold after_txn. by rewrite !insert_insert_eq.
Qed.

Lemma run_deleteValueFromDb (key : string) (s : Rocks) :
  run rocks (deleteValueFromDb key) s
  = (Returns kOk, after_txn (delete key (committed s)) s).
Proof.
  unfold deleteValueFromDb, getTransaction, call. cbn.
  rewrite assert_true. cbn. unfold buffer. cbn.
  rewrite lookup_insert_eq. cbn. rewrite assert_true. cbn.
  rewrite lookup_insert_eq. cbn. rewrite assert_true. cbn.
  unfold after_txn. by rewrite !insert_insert_eq.
Qed.

Lemma run_saveValueWithRefCount (count : Z) (key value : string) (s : Rocks) :
  run rocks (saveValueWithRefCount count key value) s
  = (Returns (SaveResults.mk count kOk key),
     after_txn (<[key := serializeCountAndValue count value]> (committed s)) s).
Proof.
  unfold saveValueWithRefCount. cbv zeta.
  by rewrite run_bind, run_saveValueToDb.
Qed.

Lemma run_getStoredValue (key : string) (s : Rocks) :
  run rocks (getStoredValue key) s
  = match committed s !! key with
    | Some entry =>
        match parseCountAndValue entry with
        | Returns (count, value) => (Returns (GetResults.mk count kOk value), s)
        | Crashes c => (Crashes c, s)
        end
    | None => (Returns (GetResults.mk 0 kNotFound ""), s)
    end.
Proof.
  unfold getStoredValue, call. cbn.
  destruct (committed s !! key) as [entry|]; cbn; [|done].
  by destruct (parseCountAndValue entry) as [[count value]|c].
Qed.

Lemma run_saveValue (value key : string) (s : Rocks) :
  run rocks (saveValue value key) s
  = match committed s !! key with
    | Some entry =>
        match parseCountAndValue entry with
        | Returns (count, stored) =>
            if decide (stored ≠ value)
            then (Returns (SaveResults.mk (-1) kInvalidArgument key), s)
            else
              (Returns (SaveResults.mk (int_add count 1) kOk key),
               after_txn (<[key := serializeCountAndValue (int_add count 1) value]>
                            (committed s)) s)
        | Crashes c => (Crashes c, s)
        end
    | None =>
        (Returns (SaveResults.mk 1 kOk key),
         after_txn (<[key := serializeCountAndValue 1 value]> (committed s)) s)
    end.
Proof.
  unfold saveValue. rewrite run_bind, run_getStoredValue.
  destruct (committed s !! key) as [entry|]; cbn.
  - destruct (parseCountAndValue entry) as [[count stored]|c]; cbn; [|done].
    destruct (decide (stored ≠ value)); [done|].
    apply run_saveValueWithRefCount.
  - apply run_saveValueWithRefCount.
Qed.

Lemma run_incrementReference (key : string) (s : Rocks) :
  run rocks (incrementReference key) s
  = match committed s !! key with
    | Some entry =>
        match parseCountAndValue entry with
        | Returns (count, stored) =>
            (Returns (SaveResults.mk (int_add count 1) kOk key),
             after_txn (<[key := serializeCountAndValue (int_add count 1) stored]>
                          (committed s)) s)
        | Crashes c => (Crashes c, s)
        end
    | None => (Returns (SaveResults.mk 0 kNotFound key), s)
    end.
Proof.
  unfold incrementReference. rewrite run_bind, run_getStoredValue.
  destruct (committed s !! key) as [entry|]; cbn; [|done].
  destruct (parseCountAndValue entry) as [[count stored]|c]; cbn; [|done].
  apply run_saveValueWithRefCount.
Qed.

Lemma run_deleteStoredValue (key : string) (s : Rocks) :
  run rocks (deleteStoredValue key) s
  = match committed s !! key with
    | Some entry =>
        match parseCountAndValue entry with
        | Returns (count, stored) =>
            if (count <? 2)%Z
            then (Returns (DeleteResults.mk 0 kOk),
                  after_txn (delete key (committed s)) s)
            else
              (Returns (DeleteResults.mk (int_sub count 1) kOk),
               after_txn (<[key := serializeCountAndValue (int_sub count 1) stored]>
                            (committed s)) s)
        | Crashes c => (Crashes c, s)
        end
    | None => (Returns (DeleteResults.mk 0 kNotFound), s)
    end.
Proof.
  unfold deleteStoredValue. rewrite run_bind, run_getStoredValue.
  destruct (committed s !! key) as [entry|]; [|done].
  destruct (parseCountAndValue entry) as [[count stored]|c]; [|done].
  cbn [ok GetResults.status GetResults.reference_count GetResults.stored_value]. cbv zeta.
  destruct (count <? 2)%Z.
  - by rewrite run_bind, run_deleteValueFromDb.
  - by rewrite run_bind, run_saveValueWithRefCount.
Qed.

Lemma wrap_int_range (z : Z) : in_int (wrap_int z).
Proof.
  unfold in_int, INT_MIN, INT_MAX, wrap_int.
  pose proof (Z.mod_pos_bound (z + 2 ^ 31) (2 ^ 32)). lia.
Qed.

Lemma parse_in_int (entry : string) (count : Z) (value : string) :
  parseCountAndValue entry = Returns (count, value) -> in_int count.
Proof.
  destruct entry as [|b0 [|b1 [|b2 [|b3 rest]]]]; try done.
  - intros [= <- _]. unfold in_int, INT_MIN, INT_MAX. lia.
  - rewrite parse_framed. intros [= <- _].
    unfold int_of_mem. destruct byte_order; apply wrap_int_range.
Qed.
End OnRocks.

(** ** Save, Get, Delete and IncrementReference on one key *)

(** Save twice, add a reference, delete three times, look the key up. *)
Example save_increment_delete :
  let s1 := run rocks (saveValue "v1" "k") (rocks_new ∅) in
  let s2 := run rocks (saveValue "v1" "k") s1.2 in
  let s3 := run rocks (incrementReference "k") s2.2 in
  let s4 := run rocks (deleteStoredValue "k") s3.2 in
  let s5 := run rocks (deleteStoredValue "k") s4.2 in
  let s6 := run rocks (deleteStoredValue "k") s5.2 in
  let s7 := run rocks (getStoredValue "k") s6.2 in
  [s1.1; s2.1; s3.1]
    = [ Returns (SaveResults.mk 1 kOk "k"); Returns (SaveResults.mk 2 kOk "k");
        Returns (SaveResults.mk 3 kOk "k") ]
  /\ [s4.1; s5.1; s6.1]
     = [ Returns (DeleteResults.mk 2 kOk); Returns (DeleteResults.mk 1 kOk);
         Returns (DeleteResults.mk 0 kOk) ]
  /\ s7.1 = Returns (GetResults.mk 0 kNotFound "").
Proof. vm_compute. done. Qed.

(** C4: from a state where the key is absent, Save(key, value) succeeds
    and returns reference count 1, and the Get(key) that follows returns
    exactly (value, 1). *)
Theorem C4_save_then_get `{Build} (key value : string) (s : Rocks) :
  committed s !! key = None ->
  let saved := run rocks (saveValue value key) s in
  saved.1 = Returns (SaveResults.mk 1 kOk key)
  /\ run rocks (getStoredValue key) saved.2
     = (Returns (GetResults.mk 1 kOk value), saved.2).
Proof.
  intros Habsent saved. subst saved.
  rewrite run_saveValue, Habsent. cbn [fst snd]. split; [done|].
  rewrite run_getStoredValue. cbn [committed after_txn].
  rewrite lookup_insert_eq, parse_serialize; [done|].
  unfold in_int, INT_MIN, INT_MAX. lia.
Qed.

Lemma C4_save_then_get_witness :
  committed (rocks_new ∅) !! "k" = None
  /\ (run rocks (saveValue "v1" "k") (rocks_new ∅)).1
     = Returns (SaveResults.mk 1 kOk "k").
Proof.
  split; [reflexivity|].
  apply (C4_save_then_get "k" "v1" (rocks_new ∅)). reflexivity.
Defined.

(** C5: when the key has a stored record and the value differs from the
    stored one, Save(key, value) fails with InvalidArgument and changes
    nothing: Get(key) returns the stored value and the stored reference
    count, as before. *)
Theorem C5_save_mismatch `{Build} (key value entry stored : string)
    (count : Z) (s : Rocks) :
  committed s !! key = Some entry ->
  parseCountAndValue entry = Returns (count, stored) ->
  value ≠ stored ->
  let failed := run rocks (saveValue value key) s in
  failed.1 = Returns (SaveResults.mk (-1) kInvalidArgument key)
  /\ failed.2 = s
  /\ run rocks (getStoredValue key) failed.2
     = (Returns (GetResults.mk count kOk stored), s)
  /\ run rocks (getStoredValue key) s
     = (Returns (GetResults.mk count kOk stored), s).
Proof.
  intros Hentry Hparse Hne failed. subst failed.
  rewrite run_saveValue, Hentry, Hparse.
  rewrite decide_True by congruence. cbn [fst snd].
  rewrite run_getStoredValue, Hentry, Hparse. done.
Qed.

Lemma C5_save_mismatch_witness :
  let s := rocks_new {[ "k" := serializeCountAndValue 1 "v1" ]} in
  (run rocks (saveValue "v2" "k") s).1
    = Returns (SaveResults.mk (-1) kInvalidArgument "k")
  /\ run rocks (getStoredValue "k") s = (Returns (GetResults.mk 1 kOk "v1"), s).
Proof.
  intros s.
  assert (committed s !! "k" = Some (serializeCountAndValue 1 "v1")) as Hentry
    by reflexivity.
  assert (parseCountAndValue (serializeCountAndValue 1 "v1") = Returns (1, "v1"))
    as Hparse by reflexivity.
  assert ("v2" ≠ "v1") as Hne by discriminate.
  pose proof (C5_save_mismatch "k" "v2" _ "v1" 1 s Hentry Hparse Hne) as Hc.
  split; [exact (proj1 Hc) | exact (proj2 (proj2 (proj2 Hc)))].
Defined.

(** C6: Delete(key) fails with NotFound when the key is absent; removes the
    record and returns 0 when the stored reference count is below 2; and
    otherwise stores the count lowered by one with the same value and
    returns the new count. *)
Theorem C6_delete `{Build} (key : string) (s : Rocks) :
  let deleted := run rocks (deleteStoredValue key) s in
  (committed s !! key = None ->
     deleted = (Returns (DeleteResults.mk 0 kNotFound), s))
  /\ (forall entry count stored,
        committed s !! key = Some entry ->
        parseCountAndValue entry = Returns (count, stored) ->
        count < 2 ->
        deleted.1 = Returns (DeleteResults.mk 0 kOk)
        /\ committed deleted.2 = delete key (committed s)
        /\ committed deleted.2 !! key = None)
  /\ (forall entry count stored,
        committed s !! key = Some entry ->
        parseCountAndValue entry = Returns (count, stored) ->
        2 <= count ->
        deleted.1 = Returns (DeleteResults.mk (count - 1) kOk)
        /\ committed deleted.2
           = <[key := serializeCountAndValue (count - 1) stored]> (committed s)
        /\ run rocks (getStoredValue key) deleted.2
           = (Returns (GetResults.mk (count - 1) kOk stored), deleted.2)).
Proof.
  intros deleted. subst deleted. rewrite run_deleteStoredValue.
  split; [by intros ->|]. split.
  - intros entry count stored -> -> Hlt.
    rewrite (proj2 (Z.ltb_lt count 2)) by done. cbn [fst snd committed after_txn].
    split; [done|]. split; [done|]. apply lookup_delete_eq.
  - intros entry count stored Hentry Hparse Hge. rewrite Hentry, Hparse.
    rewrite (proj2 (Z.ltb_ge count 2)) by done. cbn [fst snd committed after_txn].
    pose proof (parse_in_int _ _ _ Hparse) as Hint.
    assert (in_int (count - 1)) as Hint'
      by (unfold in_int, INT_MIN, INT_MAX in *; lia).
    unfold int_sub. rewrite (wrap_int_small _ Hint').
    split; [done|]. split; [done|].
    rewrite run_getStoredValue. cbn [committed after_txn].
    by rewrite lookup_insert_eq, parse_serialize.
Qed.

Lemma C6_delete_witness :
  let s := rocks_new {[ "k" := serializeCountAndValue 2 "v1" ]} in
  (run rocks (deleteStoredValue "k") s).1 = Returns (DeleteResults.mk 1 kOk)
  /\ (run rocks (deleteStoredValue "k") (rocks_new ∅)).1
     = Returns (DeleteResults.mk 0 kNotFound).
Proof.
  intros s. split.
  - refine (proj1 (proj2 (proj2 (C6_delete "k" s)) _ 2 "v1" _ _ _));
      [reflexivity | reflexivity | lia].
  - rewrite (proj1 (C6_delete "k" (rocks_new ∅))); reflexivity.
Defined.

(** C7: when the key has no stored record, IncrementReference(key) and
    Delete(key) both fail with NotFound and leave the store as it was; the
    failing IncrementReference creates no record for the key. *)
Theorem C7_absent_key `{Build} (key : string) (s : Rocks) :
  committed s !! key = None ->
  let incremented := run rocks (incrementReference key) s in
  let deleted := run rocks (deleteStoredValue key) s in
  incremented = (Returns (SaveResults.mk 0 kNotFound key), s)
  /\ deleted = (Returns (DeleteResults.mk 0 kNotFound), s)
  /\ committed incremented.2 !! key = None
  /\ run rocks (getStoredValue key) incremented.2
     = run rocks (getStoredValue key) s
  /\ run rocks (getStoredValue key) deleted.2
     = run rocks (getStoredValue key) s.
Proof.
  intros Habsent incremented deleted. subst incremented deleted.
  rewrite run_incrementReference, run_deleteStoredValue, Habsent.
  cbn [fst snd]. by rewrite Habsent.
Qed.

Lemma C7_absent_key_witness :
  committed (rocks_new ∅) !! "k" = None
  /\ run rocks (incrementReference "k") (rocks_new ∅)
     = (Returns (SaveResults.mk 0 kNotFound "k"), rocks_new ∅).
Proof.
  split; [reflexivity|].
  apply (C7_absent_key "k" (rocks_new ∅)). reflexivity.
Defined.

(** C10: a failing call still returns a reference count: Save on a content
    mismatch returns -1, Delete and IncrementReference on an absent key
    return 0; and since the Delete that removes the last reference returns
    0 as well, the count alone does not tell that Delete from the one that
    failed with NotFound. *)
Theorem C10_sentinel_counts `{Build} (key value entry stored : string)
    (count : Z) (s s_absent : Rocks) :
  committed s !! key = Some entry ->
  parseCountAndValue entry = Returns (count, stored) ->
  committed s_absent !! key = None ->
  (value ≠ stored ->
     (run rocks (saveValue value key) s).1
     = Returns (SaveResults.mk (-1) kInvalidArgument key))
  /\ (run rocks (deleteStoredValue key) s_absent).1
     = Returns (DeleteResults.mk 0 kNotFound)
  /\ (run rocks (incrementReference key) s_absent).1
     = Returns (SaveResults.mk 0 kNotFound key)
  /\ (count < 2 ->
      exists last failed,
        (run rocks (deleteStoredValue key) s).1 = Returns last
        /\ (run rocks (deleteStoredValue key) s_absent).1 = Returns failed
        /\ DeleteResults.reference_count last = 0
        /\ DeleteResults.reference_count failed = 0
        /\ DeleteResults.status last = kOk
        /\ DeleteResults.status failed = kNotFound).
Proof.
  intros Hentry Hparse Habsent.
  rewrite run_saveValue, !run_deleteStoredValue, run_incrementReference.
  rewrite Hentry, Hparse, Habsent. cbn [fst].
  split; [by intros Hne; rewrite decide_True by congruence|].
  split; [done|]. split; [done|].
  intros Hlt. rewrite (proj2 (Z.ltb_lt count 2)) by done.
  by eexists _, _.
Qed.

Lemma C10_sentinel_counts_witness :
  let s := rocks_new {[ "k" := serializeCountAndValue 1 "v1" ]} in
  (run rocks (deleteStoredValue "k") s).1 = Returns (DeleteResults.mk 0 kOk)
  /\ (run rocks (deleteStoredValue "k") (rocks_new ∅)).1
     = Returns (DeleteResults.mk 0 kNotFound).
Proof.
  intros s.
  assert (committed s !! "k" = Some (serializeCountAndValue 1 "v1")) as Hentry
    by reflexivity.
  assert (parseCountAndValue (serializeCountAndValue 1 "v1") = Returns (1, "v1"))
    as Hparse by reflexivity.
  assert (committed (rocks_new ∅) !! "k" = None) as Habsent by reflexivity.
  destruct (C10_sentinel_counts "k" "v2" _ "v1" 1 s (rocks_new ∅)
              Hentry Hparse Habsent) as (_ & Hdel & _ & Hsame).
  split; [|exact Hdel].
  destruct (Hsame ltac:(lia)) as (last & failed & Hl & _ & Hc & _ & Hs & _).
  rewrite Hl. destruct last as [c st]. cbn in Hc, Hs. by subst.
Defined.

(** ** Engine failures *)

Section AnyEngine.
Context `{Build} {S : Type} (h : Handler S).

Lemma run_getStoredValue_failed (key : string) (s s' : S) (st : Status)
    (v : string) :
  h _ (DbGet key) s = ((st, v), s') -> ok st = false ->
  run h (getStoredValue key) s = (Returns (GetResults.mk 0 kNotFound ""), s').
Proof.
  intros Hget Hok. unfold getStoredValue, call. cbn. rewrite Hget. cbn.
  by rewrite Hok.
Qed.

Lemma run_getStoredValue_found (key : string) (s s' : S) (st : Status)
    (entry : string) :
  h _ (DbGet key) s = ((st, entry), s') -> ok st = true ->
  run h (getStoredValue key) s
  = match parseCountAndValue entry with
    | Returns (count, value) => (Returns (GetResults.mk count st value), s')
    | Crashes c => (Crashes c, s')
    end.
Proof.
  intros Hget Hok. unfold getStoredValue, call. cbn. rewrite Hget. cbn.
  rewrite Hok. by destruct (parseCountAndValue entry) as [[count value]|c].
Qed.

Lemma run_saveValueWithRefCount_failed (count : Z) (key value : string)
    (s s' : S) (st : Status) :
  run h (saveValueToDb (serializeCountAndValue count value) key) s
    = (Returns st, s') ->
  ok st = false ->
  run h (saveValueWithRefCount count key value) s
  = (Returns (SaveResults.mk 0 kNotFound key), s').
Proof.
  intros Hsave Hok. unfold saveValueWithRefCount. cbv zeta.
  rewrite run_bind, Hsave. by rewrite Hok.
Qed.

Lemma run_incrementReference_failed (key : string) (s s' : S) (st : Status)
    (v : string) :
  h _ (DbGet key) s = ((st, v), s') -> ok st = false ->
  run h (incrementReference key) s
  = (Returns (SaveResults.mk 0 kNotFound key), s').
Proof.
  intros Hget Hok. unfold incrementReference.
  by rewrite run_bind, (run_getStoredValue_failed _ _ _ _ _ Hget Hok).
Qed.

Lemma run_deleteStoredValue_failed (key : string) (s s' : S) (st : Status)
    (v : string) :
  h _ (DbGet key) s = ((st, v), s') -> ok st = false ->
  run h (deleteStoredValue key) s
  = (Returns (DeleteResults.mk 0 kNotFound), s').
Proof.
  intros Hget Hok. unfold deleteStoredValue.
  by rewrite run_bind, (run_getStoredValue_failed _ _ _ _ _ Hget Hok).
Qed.

Lemma run_saveValue_failed (key value : string) (s s' : S) (st : Status)
    (v : string) :
  h _ (DbGet key) s = ((st, v), s') -> ok st = false ->
  run h (saveValue value key) s
  = run h (saveValueWithRefCount 1 key value) s'.
Proof.
  intros Hget Hok. unfold saveValue.
  by rewrite run_bind, (run_getStoredValue_failed _ _ _ _ _ Hget Hok).
Qed.

Lemma run_saveValueToDb_calls (value key : string) (t : Txn)
    (pst cst : Status) (s s1 s2 s3 : S) :
  h _ BeginTransaction s = (Some t, s1) ->
  h _ (TxnPut t key value) s1 = (pst, s2) ->
  h _ (TxnCommit t) s2 = (cst, s3) ->
  run h (saveValueToDb value key) s
  = if NDEBUG then (Returns cst, (h _ (TxnFree t) s3).2)
    else if ok pst
         then if ok cst then (Returns cst, (h _ (TxnFree t) s3).2)
              else (Crashes AssertionFailed, s3)
         else (Crashes AssertionFailed, s2).
Proof.
  intros Hbegin Hput Hcommit.
  unfold saveValueToDb, getTransaction, call, assert. cbn. rewrite Hbegin.
  destruct NDEBUG; cbn.
  - rewrite Hput. cbn. rewrite Hcommit. cbn. by destruct (h _ (TxnFree t) s3).
  - rewrite Hput. destruct (ok pst); cbn; [|done].
    rewrite Hcommit. destruct (ok cst); cbn; [|done].
    by destruct (h _ (TxnFree t) s3).
Qed.

Lemma run_deleteStoredValue_last (key entry stored : string) (count : Z)
    (st : Status) (s s1 s2 : S) :
  h _ (DbGet key) s = ((kOk, entry), s1) ->
  parseCountAndValue entry = Returns (count, stored) ->
  count < 2 ->
  run h (deleteValueFromDb key) s1 = (Returns st, s2) ->
  run h (deleteStoredValue key) s = (Returns (DeleteResults.mk 0 st), s2).
Proof.
  intros Hget Hparse Hlt Hdel. unfold deleteStoredValue.
  rewrite run_bind, (run_getStoredValue_found _ _ _ _ _ Hget eq_refl), Hparse.
  cbn [ok GetResults.status GetResults.reference_count]. cbv zeta.
  rewrite (proj2 (Z.ltb_lt count 2)) by done.
  by rewrite run_bind, Hdel.
Qed.
Lemma run_deleteValueFromDb_calls (key : string) (t : Txn)
    (dst cst : Status) (s s1 s2 s3 : S) :
  h _ BeginTransaction s = (Some t, s1) ->
  h _ (TxnDelete t key) s1 = (dst, s2) ->
  h _ (TxnCommit t) s2 = (cst, s3) ->
  run h (deleteValueFromDb key) s
  = if NDEBUG then (Returns cst, (h _ (TxnFree t) s3).2)
    else if ok dst
         then if ok cst then (Returns cst, (h _ (TxnFree t) s3).2)
              else (Crashes AssertionFailed, s3)
         else (Crashes AssertionFailed, s2).
Proof.
  intros Hbegin Hdel Hcommit.
  unfold deleteValueFromDb, getTransaction, call, assert. cbn. rewrite Hbegin.
  destruct NDEBUG; cbn.
  - rewrite Hdel. cbn. rewrite Hcommit. cbn. by destruct (h _ (TxnFree t) s3).
  - rewrite Hdel. destruct (ok dst); cbn; [|done].
    rewrite Hcommit. destruct (ok cst); cbn; [|done].
    by destruct (h _ (TxnFree t) s3).
Qed.

Lemma run_incrementReference_found (key entry stored : string) (count : Z)
    (s s1 : S) :
  h _ (DbGet key) s = ((kOk, entry), s1) ->
  parseCountAndValue entry = Returns (count, stored) ->
  run h (incrementReference key) s
  = run h (saveValueWithRefCount (int_add count 1) key stored) s1.
Proof.
  intros Hget Hparse. unfold incrementReference.
  by rewrite run_bind, (run_getStoredValue_found _ _ _ _ _ Hget eq_refl), Hparse.
Qed.

Lemma run_saveValue_found (key entry value : string) (count : Z) (s s1 : S) :
  h _ (DbGet key) s = ((kOk, entry), s1) ->
  parseCountAndValue entry = Returns (count, value) ->
  run h (saveValue value key) s
  = run h (saveValueWithRefCount (int_add count 1) key value) s1.
Proof.
  intros Hget Hparse. unfold saveValue.
  rewrite run_bind, (run_getStoredValue_found _ _ _ _ _ Hget eq_refl), Hparse.
  cbn [ok GetResults.status GetResults.reference_count
       GetResults.stored_value].
  by rewrite decide_False by (intros Hne; by apply Hne).
Qed.

Lemma run_deleteStoredValue_lowered (key entry stored : string) (count : Z)
    (s s1 : S) :
  h _ (DbGet key) s = ((kOk, entry), s1) ->
  parseCountAndValue entry = Returns (count, stored) ->
  2 <= count ->
  run h (deleteStoredValue key) s
  = match run h (saveValueWithRefCount (count - 1) key stored) s1 with
    | (Returns u, s2) =>
        (Returns (DeleteResults.mk (count - 1) (SaveResults.status u)), s2)
    | (Crashes c, s2) => (Crashes c, s2)
    end.
Proof.
  intros Hget Hparse Hge. unfold deleteStoredValue.
  rewrite run_bind, (run_getStoredValue_found _ _ _ _ _ Hget eq_refl), Hparse.
  cbn [ok GetResults.status GetResults.reference_count
       GetResults.stored_value].
  cbv zeta. rewrite (proj2 (Z.ltb_ge count 2)) by done.
  pose proof (parse_in_int _ _ _ Hparse) as Hint.
  assert (in_int (count - 1)) as Hint'
    by (unfold in_int, INT_MIN, INT_MAX in *; lia).
  unfold int_sub. rewrite (wrap_int_small _ Hint'). rewrite run_bind.
  by destruct (run h (saveValueWithRefCount (count - 1) key stored) s1)
    as [[u|c] s2].
Qed.

Lemma run_saveValueWithRefCount_calls (count : Z) (key value : string)
    (t : Txn) (pst cst : Status) (s s1 s2 s3 : S) :
  h _ BeginTransaction s = (Some t, s1) ->
  h _ (TxnPut t key (serializeCountAndValue count value)) s1 = (pst, s2) ->
  h _ (TxnCommit t) s2 = (cst, s3) ->
  run h (saveValueWithRefCount count key value) s
  = let released := (h _ (TxnFree t) s3).2 in
    let reported :=
      if ok cst then SaveResults.mk count cst key
      else SaveResults.mk 0 kNotFound key in
    if NDEBUG then (Returns reported, released)
    else if ok pst
         then if ok cst then (Returns reported, released)
              else (Crashes AssertionFailed, s3)
         else (Crashes AssertionFailed, s2).
Proof.
  intros Hbegin Hput Hcommit. unfold saveValueWithRefCount. cbv zeta.
  rewrite run_bind, (run_saveValueToDb_calls _ _ _ _ _ _ _ _ _ Hbegin Hput Hcommit).
  destruct NDEBUG, (ok pst), (ok cst) eqn:Hcst; cbv beta iota zeta;
    rewrite ?Hcst; reflexivity.
Qed.
End AnyEngine.

(** C3 (as the code has it): an engine failure is not passed on as it is.
    A lookup the engine fails is reported as NotFound with count 0 by Get,
    IncrementReference and Delete, and makes Save write a record with count
    1.  A put transaction yields a status that is not ok only in a build
    without assertions, where the status of the Put is dropped and the
    status of the Commit is what the transaction yields (with assertions
    compiled in, a failing Put or Commit aborts the process); that status
    is reported as NotFound, with count 0 by Save and IncrementReference
    and with the lowered count by Delete.  Only the status of the delete
    transaction of Delete reaches the caller unchanged (the status of its
    Commit without assertions, an abort on a failing Delete or Commit with
    them). *)
Theorem C3_engine_failures `{Build} {S : Type} (h : Handler S)
    (key value : string) (s : S) :
  (forall st v s1,
     h _ (DbGet key) s = ((st, v), s1) -> ok st = false ->
     run h (getStoredValue key) s
     = (Returns (GetResults.mk 0 kNotFound ""), s1)
     /\ run h (incrementReference key) s
        = (Returns (SaveResults.mk 0 kNotFound key), s1)
     /\ run h (deleteStoredValue key) s
        = (Returns (DeleteResults.mk 0 kNotFound), s1)
     /\ run h (saveValue value key) s
        = run h (saveValueWithRefCount 1 key value) s1)
  /\ (forall count st s1,
       run h (saveValueToDb (serializeCountAndValue count value) key) s
         = (Returns st, s1) ->
       ok st = false ->
       run h (saveValueWithRefCount count key value) s
       = (Returns (SaveResults.mk 0 kNotFound key), s1))
  /\ (forall t pst cst s1 s2 s3,
       h _ BeginTransaction s = (Some t, s1) ->
       h _ (TxnPut t key value) s1 = (pst, s2) ->
       h _ (TxnCommit t) s2 = (cst, s3) ->
       run h (saveValueToDb value key) s
       = if NDEBUG then (Returns cst, (h _ (TxnFree t) s3).2)
         else if ok pst
              then if ok cst then (Returns cst, (h _ (TxnFree t) s3).2)
                   else (Crashes AssertionFailed, s3)
              else (Crashes AssertionFailed, s2))
  /\ (forall entry stored count st s1 s2,
       h _ (DbGet key) s = ((kOk, entry), s1) ->
       parseCountAndValue entry = Returns (count, stored) ->
       count < 2 ->
       run h (deleteValueFromDb key) s1 = (Returns st, s2) ->
       run h (deleteStoredValue key) s
       = (Returns (DeleteResults.mk 0 st), s2))
  /\ (forall t dst cst s1 s2 s3,
       h _ BeginTransaction s = (Some t, s1) ->
       h _ (TxnDelete t key) s1 = (dst, s2) ->
       h _ (TxnCommit t) s2 = (cst, s3) ->
       run h (deleteValueFromDb key) s
       = if NDEBUG then (Returns cst, (h _ (TxnFree t) s3).2)
         else if ok dst
              then if ok cst then (Returns cst, (h _ (TxnFree t) s3).2)
                   else (Crashes AssertionFailed, s3)
              else (Crashes AssertionFailed, s2))
  /\ (forall entry stored count st s1 s2,
       h _ (DbGet key) s = ((kOk, entry), s1) ->
       parseCountAndValue entry = Returns (count, stored) ->
       ok st = false ->
       (run h (saveValueToDb
                 (serializeCountAndValue (int_add count 1) stored) key) s1
          = (Returns st, s2) ->
        run h (incrementReference key) s
          = (Returns (SaveResults.mk 0 kNotFound key), s2)
        /\ (stored = value ->
            run h (saveValue value key) s
            = (Returns (SaveResults.mk 0 kNotFound key), s2)))
       /\ (2 <= count ->
           run h (saveValueToDb
                    (serializeCountAndValue (count - 1) stored) key) s1
             = (Returns st, s2) ->
           run h (deleteStoredValue key) s
           = (Returns (DeleteResults.mk (count - 1) kNotFound), s2)))
  /\ (forall entry stored count t pst cst s1 s2 s3 s4,
       NDEBUG = true ->
       h _ (DbGet key) s = ((kOk, entry), s1) ->
       parseCountAndValue entry = Returns (count, stored) ->
       2 <= count ->
       h _ BeginTransaction s1 = (Some t, s2) ->
       h _ (TxnPut t key (serializeCountAndValue (count - 1) stored)) s2
         = (pst, s3) ->
       h _ (TxnCommit t) s3 = (cst, s4) ->
       ok cst = false ->
       run h (deleteStoredValue key) s
       = (Returns (DeleteResults.mk (count - 1) kNotFound),
          (h _ (TxnFree t) s4).2)).
Proof.
  split; [|split; [|split; [|split; [|split; [|split]]]]].
  - intros st v s1 Hget Hok.
    split; [by eapply run_getStoredValue_failed|].
    split; [by eapply run_incrementReference_failed|].
    split; [by eapply run_deleteStoredValue_failed|].
    by eapply run_saveValue_failed.
  - intros count st s1. apply run_saveValueWithRefCount_failed.
  - intros t pst cst s1 s2 s3. apply run_saveValueToDb_calls.
  - intros entry stored count st s1 s2. apply run_deleteStoredValue_last.
  - intros t dst cst s1 s2 s3. apply run_deleteValueFromDb_calls.
  - intros entry stored count st s1 s2 Hget Hparse Hok. split.
    + intros Hsave. split.
      * rewrite (run_incrementReference_found _ _ _ _ _ _ _ Hget Hparse).
        by apply (run_saveValueWithRefCount_failed _ _ _ _ _ _ st).
      * intros ->.
        rewrite (run_saveValue_found _ _ _ _ _ _ _ Hget Hparse).
        by apply (run_saveValueWithRefCount_failed _ _ _ _ _ _ st).
    + intros Hge Hsave.
      rewrite (run_deleteStoredValue_lowered _ _ _ _ _ _ _ Hget Hparse Hge).
      by rewrite (run_saveValueWithRefCount_failed _ _ _ _ _ _ _ Hsave Hok).
  - intros entry stored count t pst cst s1 s2 s3 s4
      Hndebug Hget Hparse Hge Hbegin Hput Hcommit Hok.
    rewrite (run_deleteStoredValue_lowered _ _ _ _ _ _ _ Hget Hparse Hge).
    rewrite (run_saveValueWithRefCount_calls _ _ _ _ _ _ _ _ _ _ _
               Hbegin Hput Hcommit).
    cbv zeta. by rewrite Hndebug, Hok.
Qed.

Lemma C3_engine_failures_witness :
  run io_error_engine (getStoredValue "k") tt
    = (Returns (GetResults.mk 0 kNotFound ""), tt)
  /\ run io_error_engine (saveValueWithRefCount 2 "k" "v") tt
     = (Returns (SaveResults.mk 0 kNotFound "k"), tt)
  /\ run (commit_failing_engine (serializeCountAndValue 2 "v"))
         (incrementReference "k") tt
     = (Returns (SaveResults.mk 0 kNotFound "k"), tt)
  /\ run (commit_failing_engine (serializeCountAndValue 2 "v"))
         (deleteStoredValue "k") tt
     = (Returns (DeleteResults.mk 1 kNotFound), tt).
Proof.
  pose proof (C3_engine_failures io_error_engine "k" "v" tt)
    as (Hlookup & Hput & _).
  pose proof (C3_engine_failures
                (commit_failing_engine (serializeCountAndValue 2 "v"))
                "k" "v" tt)
    as (_ & _ & _ & _ & _ & Hwrite & _).
  assert (parseCountAndValue (serializeCountAndValue 2 "v") = Returns (2, "v"))
    as Hparse by reflexivity.
  destruct (Hwrite _ "v" 2 kIOError tt tt eq_refl Hparse eq_refl)
    as [Hup Hdown].
  split; [exact (proj1 (Hlookup kIOError "" tt eq_refl eq_refl))|].
  split; [exact (Hput 2 kIOError tt eq_refl eq_refl)|].
  split; [exact (proj1 (Hup eq_refl))|].
  exact (Hdown ltac:(lia) eq_refl).
Defined.

(** C3 (as stated) fails: the engine answers the lookup of "k" with IOError,
    and Get returns NotFound. *)
Lemma C3_counterexample :
  (io_error_engine _ (DbGet "k") tt).1.1 = kIOError
  /\ ~ surfaces GetResults.status io_error_engine
        (getStoredValue "k") tt kIOError
  /\ ~ surfaces SaveResults.status io_error_engine
        (incrementReference "k") tt kIOError
  /\ ~ surfaces DeleteResults.status io_error_engine
        (deleteStoredValue "k") tt kIOError.
Proof.
  split; [reflexivity|].
  repeat split; intros (r & Hrun & Hst); vm_compute in Hrun;
    injection Hrun as <-; discriminate Hst.
Qed.

(** ** Closing the store *)

Lemma CheckpointStorage_delete_destroys (this : CheckpointStorage)
    (db : Rocks) (disk : Disk) :
  txn_db this = Some db ->
  CheckpointStorage_delete this disk
  = Returns (delete (txn_db_path this) disk).
Proof.
  intros Hopen. unfold CheckpointStorage_delete. rewrite Hopen.
  unfold DestroyDB, TransactionDB_Close. by rewrite delete_insert_eq.
Qed.

(** C2 (as the code has it): closing the store closes the engine and then
    destroys the database at the store's path.  After Close no database is
    left at that path, so no record of the store is durably present,
    whatever its reference count; the databases at other paths are as they
    were. *)
Theorem C2_close_destroys (this : CheckpointStorage) (db : Rocks)
    (disk : Disk) :
  txn_db this = Some db ->
  exists disk',
    CheckpointStorage_delete this disk = Returns disk'
    /\ disk' !! txn_db_path this = None
    /\ (forall key entry,
          ~ durably_present (CheckpointStorage_delete this disk)
              (txn_db_path this) key entry)
    /\ (forall path, path ≠ txn_db_path this -> disk' !! path = disk !! path).
Proof.
  intros Hopen. exists (delete (txn_db_path this) disk).
  rewrite (CheckpointStorage_delete_destroys this db disk Hopen).
  split; [done|]. split; [apply lookup_delete_eq|]. split.
  - intros key entry (disk' & db' & [= <-] & Hpath & _).
    by rewrite lookup_delete_eq in Hpath.
  - intros path Hne. by apply lookup_delete_ne.
Qed.

Lemma C2_close_destroys_witness :
  let opened := CheckpointStorage_new "db" ∅ in
  exists disk',
    CheckpointStorage_delete opened.1 opened.2 = Returns disk'
    /\ disk' !! "db" = None.
Proof.
  intros opened.
  destruct (C2_close_destroys opened.1 (rocks_new ∅) opened.2 eq_refl)
    as (disk' & Hdel & Hgone & _).
  exists disk'. split; [exact Hdel | exact Hgone].
Defined.

(** C2 (as stated) fails: a store is opened at "db", "v1" is saved under "k"
    (reference count 1), and after the store is closed the record is not
    there. *)
Lemma C2_counterexample :
  let opened := CheckpointStorage_new "db" ∅ in
  let saved := method (saveValue "v1" "k") opened.1 in
  let entry := serializeCountAndValue 1 "v1" in
  saved.1 = Returns (SaveResults.mk 1 kOk "k")
  /\ (exists db, txn_db saved.2 = Some db /\ committed db !! "k" = Some entry)
  /\ parseCountAndValue entry = Returns (1, "v1")
  /\ ~ durably_present (CheckpointStorage_delete saved.2 opened.2)
        "db" "k" entry.
Proof.
  intros opened saved entry.
  split; [reflexivity|]. split; [by eexists|]. split; [reflexivity|].
  intros (disk' & db' & Hdel & Hpath & _).
  assert (CheckpointStorage_delete saved.2 opened.2 = Returns ∅) as Hrun
    by (vm_compute; reflexivity).
  rewrite Hrun in Hdel. injection Hdel as <-.
  by rewrite lookup_empty in Hpath.
Qed.

(** ** The lookup and the transaction *)

Section Traces.
Context `{Build} {S : Type} (h : Handler S).

Lemma lookup_then_txn_intro (key : string) (t : Txn) (w : Event)
    (rest : list Event) :
  is_write_to key t w ->
  rest `prefix_of` [EBegin; w; ECommit t; EFree t] ->
  lookup_then_txn key (EGet key :: rest).
Proof. intros Hw Hrest. by exists rest, t, w. Qed.

Lemma trace_saveValueToDb (value key : string) (s : S) :
  exists t,
    trace h (saveValueToDb value key) s
    `prefix_of` [EBegin; EPut t key value; ECommit t; EFree t].
Proof.
  unfold saveValueToDb, getTransaction, call, assert. cbn.
  destruct (h _ BeginTransaction s) as [[t|] s1]; cbn.
  - exists t. destruct NDEBUG; cbn.
    + destruct (h _ (TxnPut t key value) s1) as [pst s2]; cbn.
      destruct (h _ (TxnCommit t) s2) as [cst s3]; cbn.
      by destruct (h _ (TxnFree t) s3).
    + destruct (h _ (TxnPut t key value) s1) as [pst s2]; cbn.
      destruct (ok pst); cbn; [|by eexists].
      destruct (h _ (TxnCommit t) s2) as [cst s3]; cbn.
      destruct (ok cst); cbn; [|by eexists].
      by destruct (h _ (TxnFree t) s3).
  - exists 0%nat. destruct NDEBUG; cbn; by eexists.
Qed.

Lemma trace_deleteValueFromDb (key : string) (s : S) :
  exists t,
    trace h (deleteValueFromDb key) s
    `prefix_of` [EBegin; EDelete t key; ECommit t; EFree t].
Proof.
  unfold deleteValueFromDb, getTransaction, call, assert. cbn.
  destruct (h _ BeginTransaction s) as [[t|] s1]; cbn.
  - exists t. destruct NDEBUG; cbn.
    + destruct (h _ (TxnDelete t key) s1) as [pst s2]; cbn.
      destruct (h _ (TxnCommit t) s2) as [cst s3]; cbn.
      by destruct (h _ (TxnFree t) s3).
    + destruct (h _ (TxnDelete t key) s1) as [pst s2]; cbn.
      destruct (ok pst); cbn; [|by eexists].
      destruct (h _ (TxnCommit t) s2) as [cst s3]; cbn.
      destruct (ok cst); cbn; [|by eexists].
      by destruct (h _ (TxnFree t) s3).
  - exists 0%nat. destruct NDEBUG; cbn; by eexists.
Qed.

Lemma trace_saveValueWithRefCount (count : Z) (key value : string) (s : S) :
  trace h (saveValueWithRefCount count key value) s
  = trace h (saveValueToDb (serializeCountAndValue count value) key) s.
Proof.
  unfold saveValueWithRefCount. cbv zeta. rewrite trace_bind.
  destruct (run h (saveValueToDb _ key) s) as [[st|c] s'].
  - destruct (ok st); cbn [trace]; apply app_nil_r.
  - apply app_nil_r.
Qed.

Lemma trace_getStoredValue (key : string) (s : S) :
  trace h (getStoredValue key) s = [EGet key].
Proof.
  unfold getStoredValue, call. cbn.
  destruct (h _ (DbGet key) s) as [[st v] s']. cbn.
  destruct (ok st); [|done].
  by destruct (parseCountAndValue v) as [[count value]|c].
Qed.

Lemma put_txn_after_lookup (count : Z) (key value : string) (s : S) :
  lookup_then_txn key
    (EGet key :: trace h (saveValueWithRefCount count key value) s).
Proof.
  rewrite trace_saveValueWithRefCount.
  destruct (trace_saveValueToDb (serializeCountAndValue count value) key s)
    as [t Ht].
  eapply lookup_then_txn_intro; [|exact Ht]. left. by eexists.
Qed.

Lemma no_txn_after_lookup (key : string) : lookup_then_txn key [EGet key].
Proof.
  apply (lookup_then_txn_intro key 0%nat (EDelete 0%nat key)); [by right|].
  apply prefix_nil.
Qed.

Lemma trace_incrementReference (key : string) (s : S) :
  lookup_then_txn key (trace h (incrementReference key) s).
Proof.
  unfold incrementReference. rewrite trace_bind, trace_getStoredValue.
  cbn [app].
  destruct (run h (getStoredValue key) s) as [[r|c] s'];
    [|apply no_txn_after_lookup].
  destruct (ok (GetResults.status r)); [|apply no_txn_after_lookup].
  apply put_txn_after_lookup.
Qed.

Lemma trace_saveValue (value key : string) (s : S) :
  lookup_then_txn key (trace h (saveValue value key) s).
Proof.
  unfold saveValue. rewrite trace_bind, trace_getStoredValue.
  cbn [app].
  destruct (run h (getStoredValue key) s) as [[r|c] s'];
    [|apply no_txn_after_lookup].
  destruct (ok (GetResults.status r)); [|apply put_txn_after_lookup].
  destruct (decide (GetResults.stored_value r ≠ value)); [apply no_txn_after_lookup|].
  apply put_txn_after_lookup.
Qed.

Lemma trace_deleteStoredValue (key : string) (s : S) :
  lookup_then_txn key (trace h (deleteStoredValue key) s).
Proof.
  unfold deleteStoredValue. rewrite trace_bind, trace_getStoredValue.
  cbn [app].
  destruct (run h (getStoredValue key) s) as [[r|c] s'];
    [|apply no_txn_after_lookup].
  destruct (ok (GetResults.status r)); [|apply no_txn_after_lookup].
  cbv zeta. destruct (GetResults.reference_count r <? 2)%Z.
  - rewrite trace_bind.
    destruct (trace_deleteValueFromDb key s') as [t Ht].
    apply (lookup_then_txn_intro key t (EDelete t key)); [by right|].
    destruct (run h (deleteValueFromDb key) s') as [[st|c] s''];
      cbn [trace]; by rewrite app_nil_r.
  - rewrite trace_bind.
    pose proof (put_txn_after_lookup
                  (int_sub (GetResults.reference_count r) 1) key (GetResults.stored_value r) s')
      as Hput.
    destruct (run h (saveValueWithRefCount _ key _) s') as [[u|c] s''];
      cbn [trace]; by rewrite app_nil_r.
Qed.
End Traces.

(** The calls of an IncrementReference on a stored record. *)
Example trace_incrementReference_found :
  trace rocks (incrementReference "k")
        (rocks_new {[ "k" := serializeCountAndValue 1 "v1" ]})
  = [ EGet "k"; EBegin; EPut 0%nat "k" (serializeCountAndValue 2 "v1");
      ECommit 0%nat; EFree 0%nat ].
Proof. vm_compute. reflexivity. Qed.

(** C1 (as the code has it): in every mutating call (Save,
    IncrementReference, Delete) the lookup of the current record is a
    [Get] on the database, made before any transaction is begun; the
    transaction that may follow holds only the one write (put or delete) to
    the key, its commit and the release of the transaction object.  This
    holds whatever the engine answers. *)
Theorem C1_lookup_before_transaction `{Build} {S : Type} (h : Handler S)
    (key value : string) (s : S) :
  lookup_then_txn key (trace h (saveValue value key) s)
  /\ lookup_then_txn key (trace h (incrementReference key) s)
  /\ lookup_then_txn key (trace h (deleteStoredValue key) s).
Proof.
  split; [apply trace_saveValue|].
  split; [apply trace_incrementReference | apply trace_deleteStoredValue].
Qed.

(** C1 (as stated) fails: two IncrementReference("k") calls on a record of
    count 1.  Both look the record up before either writes; each then puts
    count 2 in a transaction of its own.  Both return 2 and the store holds
    count 2, where either order of running the calls one after the other
    leaves count 3: the second writer did not observe the first one's
    write between its own read and write. *)
Lemma C1_counterexample :
  let s := rocks_new {[ "k" := serializeCountAndValue 1 "v1" ]} in
  let p := incrementReference "k" in
  let interleaved := run_schedule [0; 1; 0; 0; 0; 0; 1; 1; 1; 1]%nat [p; p] s in
  returned <$> interleaved.1
    = [Some (SaveResults.mk 2 kOk "k"); Some (SaveResults.mk 2 kOk "k")]
  /\ (run rocks (getStoredValue "k") interleaved.2).1
     = Returns (GetResults.mk 2 kOk "v1")
  /\ (run rocks (getStoredValue "k") (run rocks p (run rocks p s).2).2).1
     = Returns (GetResults.mk 3 kOk "v1")
  /\ ~ read_write_atomic p p s.
Proof.
  intros s p interleaved.
  split; [vm_compute; reflexivity|].
  split; [vm_compute; reflexivity|].
  split; [vm_compute; reflexivity|].
  intros Hatomic.
  specialize (Hatomic [0; 1; 0; 0; 0; 0; 1; 1; 1; 1]%nat
                interleaved.1 interleaved.2).
  assert (committed interleaved.2 !! "k" = Some (serializeCountAndValue 2 "v1"))
    as Hlost by (vm_compute; reflexivity).
  assert (committed (run rocks p (run rocks p s).2).2 !! "k"
          = Some (serializeCountAndValue 3 "v1"))
    as Hserial by (vm_compute; reflexivity).
  destruct Hatomic as [Heq|Heq].
  - apply surjective_pairing.
  - assert (returned <$> interleaved.1
            = [Some (SaveResults.mk 2 kOk "k"); Some (SaveResults.mk 2 kOk "k")])
      as Hret by (vm_compute; reflexivity).
    destruct interleaved.1 as [|t1 [|t2 [|t3 ts]]]; try discriminate Hret.
    injection Hret as Ht1 Ht2.
    repeat constructor; by eexists.
  - rewrite Heq, Hserial in Hlost. vm_compute in Hlost. discriminate Hlost.
  - rewrite Heq, Hserial in Hlost. vm_compute in Hlost. discriminate Hlost.
Qed.

(** ** Reference counts stay positive *)

Section Refcounts.
Context `{Build}.

Lemma refcounts_bounded_mono (n m : Z) (db : gmap string string) :
  n <= m -> refcounts_bounded n db -> refcounts_bounded m db.
Proof.
  intros Hnm Hdb key entry Hentry.
  destruct (Hdb key entry Hentry) as (count & value & -> & Hc).
  exists count, value. split; [done|lia].
Qed.

Lemma refcounts_bounded_insert (n count : Z) (key value : string)
    (db : gmap string string) :
  1 <= count <= n ->
  refcounts_bounded n db ->
  refcounts_bounded n (<[key := serializeCountAndValue count value]> db).
Proof.
  intros Hc Hdb key' entry. rewrite lookup_insert.
  case_decide; [|by apply Hdb].
  intros [= <-]. by exists count, value.
Qed.

Lemma refcounts_bounded_delete (n : Z) (key : string)
    (db : gmap string string) :
  refcounts_bounded n db -> refcounts_bounded n (delete key db).
Proof.
  intros Hdb key' entry. rewrite lookup_delete.
  case_decide; [done|by apply Hdb].
Qed.

Lemma refcounts_bounded_positive (n : Z) (db : gmap string string) :
  n <= INT_MAX -> refcounts_bounded n db -> refcounts_positive db.
Proof.
  intros Hn Hdb key entry Hentry.
  destruct (Hdb key entry Hentry) as (count & value & -> & Hc).
  exists count, value. split; [|lia].
  apply parse_serialize. unfold in_int, INT_MIN, INT_MAX in *. lia.
Qed.

Lemma exec_bounded (n : Z) (s : Rocks) (op : Op) :
  0 <= n < INT_MAX ->
  refcounts_bounded n (committed s) ->
  refcounts_bounded (n + 1) (committed (exec s op)).
Proof.
  intros Hn Hdb.
  assert (refcounts_bounded (n + 1) (committed s)) as Hdb'
    by (eapply refcounts_bounded_mono; [|done]; lia).
  assert (forall count, 1 <= count <= n -> in_int count) as Hint
    by (intros count Hc; unfold in_int, INT_MIN, INT_MAX in *; lia).
  destruct op as [key value|key|key|key]; cbn [exec].
  - rewrite run_saveValue.
    destruct (committed s !! key) as [entry|] eqn:Hentry.
    + destruct (Hdb key entry Hentry) as (count & stored & -> & Hc).
      rewrite parse_serialize by auto.
      destruct (decide (stored ≠ value)); [done|].
      cbn [snd committed after_txn].
      apply refcounts_bounded_insert; [|done].
      unfold int_add. rewrite wrap_int_small; [lia|].
      unfold in_int, INT_MIN, INT_MAX in *. lia.
    + cbn [snd committed after_txn].
      apply refcounts_bounded_insert; [lia|done].
  - rewrite run_incrementReference.
    destruct (committed s !! key) as [entry|] eqn:Hentry; [|done].
    destruct (Hdb key entry Hentry) as (count & stored & -> & Hc).
    rewrite parse_serialize by auto.
    cbn [snd committed after_txn].
    apply refcounts_bounded_insert; [|done].
    unfold int_add. rewrite wrap_int_small; [lia|].
    unfold in_int, INT_MIN, INT_MAX in *. lia.
  - rewrite run_deleteStoredValue.
    destruct (committed s !! key) as [entry|] eqn:Hentry; [|done].
    destruct (Hdb key entry Hentry) as (count & stored & -> & Hc).
    rewrite parse_serialize by auto.
    destruct (Z.ltb_spec count 2); cbn [snd committed after_txn].
    + by apply refcounts_bounded_delete.
    + apply refcounts_bounded_insert; [|done].
      unfold int_sub. rewrite wrap_int_small; [lia|].
      unfold in_int, INT_MIN, INT_MAX in *. lia.
  - rewrite run_getStoredValue.
    destruct (committed s !! key) as [entry|]; [|done].
    by destruct (parseCountAndValue entry) as [[count value]|c].
Qed.

Lemma exec_all_bounded (ops : list Op) (n : Z) (s : Rocks) :
  0 <= n ->
  n + Z.of_nat (length ops) <= INT_MAX ->
  refcounts_bounded n (committed s) ->
  refcounts_bounded (n + Z.of_nat (length ops)) (committed (exec_all ops s)).
Proof.
  revert n s. induction ops as [|op ops IH]; intros n s Hn Hlen Hdb.
  - cbn. by rewrite Z.add_0_r.
  - cbn [length] in *. rewrite Nat2Z.inj_succ in *.
    replace (n + Z.succ (Z.of_nat (length ops)))
      with ((n + 1) + Z.of_nat (length ops)) by lia.
    change (exec_all (op :: ops) s) with (exec_all ops (exec s op)).
    apply IH; [lia..|]. apply exec_bounded; [lia|done].
Qed.

Lemma refcounts_positive_insert (count : Z) (key value : string)
    (db : gmap string string) :
  1 <= count -> in_int count ->
  refcounts_positive db ->
  refcounts_positive (<[key := serializeCountAndValue count value]> db).
Proof.
  intros Hc Hint Hdb key' entry. rewrite lookup_insert.
  case_decide; [|by apply Hdb].
  intros [= <-]. exists count, value. by rewrite parse_serialize.
Qed.

Lemma refcounts_positive_delete (key : string) (db : gmap string string) :
  refcounts_positive db -> refcounts_positive (delete key db).
Proof.
  intros Hdb key' entry. rewrite lookup_delete.
  case_decide; [done|by apply Hdb].
Qed.

Lemma exec_positive (s : Rocks) (op : Op) :
  refcounts_positive (committed s) ->
  increments_below_max s op ->
  refcounts_positive (committed (exec s op)).
Proof.
  intros Hdb Hmax.
  destruct op as [key value|key|key|key]; cbn [exec increments_below_max] in *.
  - rewrite run_saveValue.
    destruct (committed s !! key) as [entry|] eqn:Hentry.
    + destruct (Hdb key entry Hentry) as (count & stored & Hparse & Hc).
      rewrite Hparse. destruct (decide (stored ≠ value)); [done|].
      cbn [snd committed after_txn].
      pose proof (Hmax entry count stored eq_refl Hparse) as Hlt.
      assert (in_int (count + 1)) as Hint
        by (unfold in_int, INT_MIN, INT_MAX in *; lia).
      unfold int_add. rewrite (wrap_int_small _ Hint).
      apply refcounts_positive_insert; [lia|done..].
    + cbn [snd committed after_txn].
      apply refcounts_positive_insert; [lia| |done].
      unfold in_int, INT_MIN, INT_MAX. lia.
  - rewrite run_incrementReference.
    destruct (committed s !! key) as [entry|] eqn:Hentry; [|done].
    destruct (Hdb key entry Hentry) as (count & stored & Hparse & Hc).
    rewrite Hparse. cbn [snd committed after_txn].
    pose proof (Hmax entry count stored eq_refl Hparse) as Hlt.
    assert (in_int (count + 1)) as Hint
      by (unfold in_int, INT_MIN, INT_MAX in *; lia).
    unfold int_add. rewrite (wrap_int_small _ Hint).
    apply refcounts_positive_insert; [lia|done..].
  - rewrite run_deleteStoredValue.
    destruct (committed s !! key) as [entry|] eqn:Hentry; [|done].
    destruct (Hdb key entry Hentry) as (count & stored & Hparse & Hc).
    rewrite Hparse. pose proof (parse_in_int _ _ _ Hparse) as Hcount.
    destruct (Z.ltb_spec count 2); cbn [snd committed after_txn].
    + by apply refcounts_positive_delete.
    + assert (in_int (count - 1)) as Hint
        by (unfold in_int, INT_MIN, INT_MAX in *; lia).
      unfold int_sub. rewrite (wrap_int_small _ Hint).
      apply refcounts_positive_insert; [lia|done..].
  - rewrite run_getStoredValue.
    destruct (committed s !! key) as [entry|]; [|done].
    by destruct (parseCountAndValue entry) as [[count value]|c].
Qed.
End Refcounts.

(** C9 (as the code has it): every record present has reference count at
    least 1, and every call of Save, IncrementReference, Delete or Get
    that does not add one to a count of 2^31 - 1 keeps it so (the count of
    a record never goes to 0: Delete removes the record instead).  In
    particular this holds after any sequence of at most 2^31 - 1 calls on
    a store that starts empty. *)
Theorem C9_refcounts_positive `{Build} :
  (forall (s : Rocks) (op : Op),
     refcounts_positive (committed s) ->
     increments_below_max s op ->
     refcounts_positive (committed (exec s op)))
  /\ (forall ops : list Op,
       Z.of_nat (length ops) <= INT_MAX ->
       refcounts_positive (committed (exec_all ops (rocks_new ∅)))).
Proof.
  split; [apply exec_positive|].
  intros ops Hlen.
  apply (refcounts_bounded_positive (0 + Z.of_nat (length ops))); [lia|].
  apply exec_all_bounded; [lia | lia |].
  unfold rocks_new. cbn [committed].
  intros key entry Hentry. by rewrite lookup_empty in Hentry.
Qed.

Lemma C9_refcounts_positive_witness :
  Z.of_nat (length [Save "k" "v1"; IncrementReference "k"; Delete "k"])
    <= INT_MAX
  /\ refcounts_positive
       (committed (exec_all [Save "k" "v1"; IncrementReference "k"; Delete "k"]
                            (rocks_new ∅))).
Proof.
  assert (Z.of_nat (length [Save "k" "v1"; IncrementReference "k"; Delete "k"])
          <= INT_MAX) as Hlen by (vm_compute; discriminate).
  split; [exact Hlen|].
  exact (proj2 C9_refcounts_positive
           [Save "k" "v1"; IncrementReference "k"; Delete "k"] Hlen).
Defined.

Lemma wrap_int_add_l (a b : Z) : wrap_int (wrap_int a + b) = wrap_int (a + b).
Proof.
  unfold wrap_int.
  replace ((a + 2 ^ 31) mod 2 ^ 32 - 2 ^ 31 + b + 2 ^ 31)
    with ((a + 2 ^ 31) mod 2 ^ 32 + b) by lia.
  rewrite Zplus_mod_idemp_l. do 2 f_equal. lia.
Qed.

Lemma exec_all_increments `{Build} (n : nat) (key value : string) (count : Z)
    (s : Rocks) :
  in_int count ->
  committed s !! key = Some (serializeCountAndValue count value) ->
  committed (exec_all (replicate n (IncrementReference key)) s) !! key
  = Some (serializeCountAndValue (wrap_int (count + Z.of_nat n)) value).
Proof.
  revert count s. induction n as [|n IH]; intros count s Hint Hentry.
  - cbn [replicate exec_all foldl]. rewrite Z.add_0_r.
    by rewrite wrap_int_small.
  - change (exec_all (replicate (S n) (IncrementReference key)) s)
      with (exec_all (replicate n (IncrementReference key))
                     (exec s (IncrementReference key))).
    rewrite (IH (int_add count 1)).
    + unfold int_add. rewrite wrap_int_add_l. do 3 f_equal. lia.
    + apply wrap_int_range.
    + cbn [exec]. rewrite run_incrementReference, Hentry.
      rewrite parse_serialize by done. cbn [snd committed after_txn].
      apply lookup_insert_eq.
Qed.

Lemma overflow_after_increments `{Build} (n : nat) (key value : string) :
  Z.of_nat n = INT_MAX ->
  committed (exec_all (Save key value :: replicate n (IncrementReference key))
                      (rocks_new ∅)) !! key
  = Some (serializeCountAndValue INT_MIN value).
Proof.
  intros Hn.
  change (exec_all (Save key value :: replicate n (IncrementReference key))
                   (rocks_new ∅))
    with (exec_all (replicate n (IncrementReference key))
                   (exec (rocks_new ∅) (Save key value))).
  rewrite (exec_all_increments n key value 1).
  - rewrite Hn. reflexivity.
  - unfold in_int, INT_MIN, INT_MAX. lia.
  - cbn [exec]. rewrite run_saveValue. cbn [committed rocks_new].
    rewrite lookup_empty. cbn [snd committed after_txn]. apply lookup_insert_eq.
Qed.

(** C9 (as stated) fails: after Save("k", "v1") and 2^31 - 1 calls of
    IncrementReference("k") the 32-bit count has wrapped around, and the
    record stored under "k" has reference count -2^31. *)
Lemma C9_counterexample :
  let ops :=
    Save "k" "v1" :: replicate (Z.to_nat INT_MAX) (IncrementReference "k") in
  committed (exec_all ops (rocks_new ∅)) !! "k"
    = Some (serializeCountAndValue INT_MIN "v1")
  /\ parseCountAndValue (serializeCountAndValue INT_MIN "v1")
     = Returns (INT_MIN, "v1")
  /\ ~ refcounts_positive (committed (exec_all ops (rocks_new ∅))).
Proof.
  assert (in_int INT_MIN) as Hmin by (unfold in_int, INT_MIN, INT_MAX; lia).
  assert (Z.of_nat (Z.to_nat INT_MAX) = INT_MAX) as Hn
    by (apply Z2Nat.id; unfold INT_MAX; lia).
  pose proof (overflow_after_increments (Z.to_nat INT_MAX) "k" "v1" Hn)
    as Hstored.
  revert Hstored Hn. generalize (Z.to_nat INT_MAX). intros n Hstored _ ops.
  split; [exact Hstored|]. split; [by apply parse_serialize|].
  intros Hpos. destruct (Hpos "k" _ Hstored) as (count & value & Hparse & Hc).
  rewrite parse_serialize in Hparse by done. injection Hparse as <- _.
  unfold INT_MIN in Hc. lia.
Qed.

(** * Further properties of the code *)

(** ** The codec, from stored bytes *)

Lemma Z_of_byte_range (a : ascii) : 0 <= Z_of_byte a < 256.
Proof.
  unfold Z_of_byte. pose proof (N_ascii_bounded a). lia.
Qed.

Lemma wrap_int_mod_unsigned (u : Z) :
  0 <= u < 2 ^ 32 -> wrap_int u mod 2 ^ 32 = u.
Proof.
  intros Hu. unfold wrap_int.
  rewrite <- (Z.mod_small u (2 ^ 32)) at 2 by done.
  rewrite Zminus_mod_idemp_l. f_equal. lia.
Qed.

Lemma base256_digit_values (a b c d : Z) :
  0 <= a < 256 -> 0 <= b < 256 -> 0 <= c < 256 -> 0 <= d < 256 ->
  let u := a + 2 ^ 8 * b + 2 ^ 16 * c + 2 ^ 24 * d in
  0 <= u < 2 ^ 32
  /\ u mod 256 = a /\ (u / 2 ^ 8) mod 256 = b
  /\ (u / 2 ^ 16) mod 256 = c /\ (u / 2 ^ 24) mod 256 = d.
Proof.
  intros Ha Hb Hc Hd u. subst u.
  split; [lia|].
  split; [symmetry; apply (Z.mod_unique_pos _ _ (b + 2 ^ 8 * c + 2 ^ 16 * d)); lia|].
  assert ((a + 2 ^ 8 * b + 2 ^ 16 * c + 2 ^ 24 * d) / 2 ^ 8
          = b + 2 ^ 8 * c + 2 ^ 16 * d) as ->
    by (symmetry; apply (Z.div_unique_pos _ _ _ a); lia).
  assert ((a + 2 ^ 8 * b + 2 ^ 16 * c + 2 ^ 24 * d) / 2 ^ 16
          = c + 2 ^ 8 * d) as ->
    by (symmetry; apply (Z.div_unique_pos _ _ _ (a + 2 ^ 8 * b)); lia).
  assert ((a + 2 ^ 8 * b + 2 ^ 16 * c + 2 ^ 24 * d) / 2 ^ 24 = d) as ->
    by (symmetry;
        apply (Z.div_unique_pos _ _ _ (a + 2 ^ 8 * b + 2 ^ 16 * c)); lia).
  split; [symmetry; apply (Z.mod_unique_pos _ _ (c + 2 ^ 8 * d)); lia|].
  split; [symmetry; apply (Z.mod_unique_pos _ _ d); lia|].
  apply Z.mod_small. lia.
Qed.

Lemma int_bytes_le_of_bytes (b0 b1 b2 b3 : ascii) :
  int_bytes_le (int_of_bytes_le b0 b1 b2 b3) = [b0; b1; b2; b3].
Proof.
  unfold int_bytes_le, int_of_bytes_le. cbv zeta.
  destruct (base256_digit_values _ _ _ _ (Z_of_byte_range b0)
              (Z_of_byte_range b1) (Z_of_byte_range b2) (Z_of_byte_range b3))
    as (Hu & H0 & H1 & H2 & H3).
  rewrite (wrap_int_mod_unsigned _ Hu).
  unfold byte_of_Z. rewrite H0, H1, H2, H3.
  unfold Z_of_byte. by rewrite !N2Z.id, !ascii_N_embedding.
Qed.

Lemma int_to_mem_of_mem `{Build} (b0 b1 b2 b3 : ascii) :
  int_to_mem (int_of_mem b0 b1 b2 b3) = [b0; b1; b2; b3].
Proof.
  unfold int_to_mem, int_of_mem.
  destruct byte_order; by rewrite int_bytes_le_of_bytes.
Qed.

Lemma serialize_framed `{Build} (b0 b1 b2 b3 : ascii) (value : string) :
  serializeCountAndValue (int_of_mem b0 b1 b2 b3) value
  = String b0 (String b1 (String b2 (String b3 value))).
Proof.
  unfold serializeCountAndValue, insert_begin. by rewrite int_to_mem_of_mem.
Qed.

(** An entry that parses to a count other than 0 is the serialization of
    what it parses to. *)
Lemma parse_canonical `{Build} (entry value : string) (count : Z) :
  parseCountAndValue entry = Returns (count, value) ->
  entry ≠ "" ->
  entry = serializeCountAndValue count value.
Proof.
  destruct entry as [|b0 [|b1 [|b2 [|b3 rest]]]]; try done.
  rewrite parse_framed. intros [= <- <-] _. by rewrite serialize_framed.
Qed.

Lemma parse_short `{Build} (entry : string) :
  (1 <= String.length entry <= 3)%nat ->
  parseCountAndValue entry
  = Crashes (if (String.length entry =? 3)%nat
             then OutOfRange else OutOfBoundsRead).
Proof.
  destruct entry as [|b0 [|b1 [|b2 [|b3 rest]]]]; cbn [String.length];
    intros Hlen; try lia; reflexivity.
Qed.

(** X1: every stored entry of at least four bytes parses, to a 32-bit
    count and to the value that is the entry without its first four bytes;
    and serializing what was parsed gives back the entry, byte for byte. *)
Theorem X1_parse_then_serialize `{Build} (entry : string) :
  (4 <= String.length entry)%nat ->
  exists count value,
    parseCountAndValue entry = Returns (count, value)
    /\ in_int count
    /\ String.length value = (String.length entry - 4)%nat
    /\ serializeCountAndValue count value = entry.
Proof.
  destruct entry as [|b0 [|b1 [|b2 [|b3 rest]]]]; cbn [String.length];
    intros Hlen; try lia.
  exists (int_of_mem b0 b1 b2 b3), rest.
  split; [apply parse_framed|].
  split; [apply (parse_in_int _ _ _ (parse_framed b0 b1 b2 b3 rest))|].
  split; [lia|]. apply serialize_framed.
Qed.

Lemma X1_parse_then_serialize_witness :
  exists count value,
    parseCountAndValue "abcdxyz" = Returns (count, value)
    /\ serializeCountAndValue count value = "abcdxyz".
Proof.
  destruct (X1_parse_then_serialize "abcdxyz" ltac:(cbn; lia))
    as (count & value & Hparse & _ & _ & Hser).
  by exists count, value.
Defined.

(** X2: a stored entry of one to three bytes cannot be parsed.  Get, Save,
    IncrementReference and Delete on its key all end in a crash instead of
    returning a status, and write nothing; for an entry of three bytes the
    crash is the [std::out_of_range] that [substr] throws. *)
Theorem X2_short_entry_crashes `{Build} (key value entry : string) (s : Rocks) :
  committed s !! key = Some entry ->
  (1 <= String.length entry <= 3)%nat ->
  exists crash,
    (String.length entry = 3%nat -> crash = OutOfRange)
    /\ run rocks (getStoredValue key) s = (Crashes crash, s)
    /\ run rocks (saveValue value key) s = (Crashes crash, s)
    /\ run rocks (incrementReference key) s = (Crashes crash, s)
    /\ run rocks (deleteStoredValue key) s = (Crashes crash, s).
Proof.
  intros Hentry Hlen.
  exists (if (String.length entry =? 3)%nat
          then OutOfRange else OutOfBoundsRead).
  split; [by intros ->|].
  rewrite run_getStoredValue, run_saveValue, run_incrementReference,
    run_deleteStoredValue, Hentry.
  by rewrite (parse_short entry Hlen).
Qed.

Lemma X2_short_entry_crashes_witness :
  run rocks (getStoredValue "k") (rocks_new {[ "k" := "abc" ]})
  = (Crashes OutOfRange, rocks_new {[ "k" := "abc" ]}).
Proof.
  assert (committed (rocks_new {[ "k" := "abc" ]}) !! "k" = Some "abc")
    as Hentry by reflexivity.
  destruct (X2_short_entry_crashes "k" "v" "abc" _ Hentry ltac:(cbn; lia))
    as (crash & Hkind & Hget & _).
  by rewrite <- (Hkind eq_refl).
Defined.

(** X3: a stored entry of no bytes at all is not an error: Get returns
    status ok with reference count 0 and the empty value; Delete removes
    the record and returns 0; IncrementReference stores count 1 with the
    empty value; Save of a value that is not empty fails with
    InvalidArgument. *)
Theorem X3_empty_entry `{Build} (key value : string) (s : Rocks) :
  committed s !! key = Some "" ->
  run rocks (getStoredValue key) s = (Returns (GetResults.mk 0 kOk ""), s)
  /\ (run rocks (deleteStoredValue key) s).1
     = Returns (DeleteResults.mk 0 kOk)
  /\ committed (run rocks (deleteStoredValue key) s).2 !! key = None
  /\ (run rocks (incrementReference key) s).1
     = Returns (SaveResults.mk 1 kOk key)
  /\ committed (run rocks (incrementReference key) s).2 !! key
     = Some (serializeCountAndValue 1 "")
  /\ (value ≠ "" ->
      run rocks (saveValue value key) s
      = (Returns (SaveResults.mk (-1) kInvalidArgument key), s)).
Proof.
  intros Hentry.
  rewrite run_getStoredValue, run_saveValue, !run_incrementReference,
    !run_deleteStoredValue, Hentry.
  change (parseCountAndValue "") with (Returns (0, "") : result (Z * string)).
  cbn [fst snd committed after_txn Z.ltb Z.compare].
  split; [done|]. split; [done|]. split; [apply lookup_delete_eq|].
  split; [done|]. split; [apply lookup_insert_eq|].
  intros Hne. by rewrite decide_True by congruence.
Qed.

Lemma X3_empty_entry_witness :
  run rocks (getStoredValue "k") (rocks_new {[ "k" := "" ]})
  = (Returns (GetResults.mk 0 kOk ""), rocks_new {[ "k" := "" ]}).
Proof.
  exact (proj1 (X3_empty_entry "k" "v" (rocks_new {[ "k" := "" ]}) eq_refl)).
Defined.

(** ** Each call touches the record of its key only *)

Section Locality.
Context `{Build}.

Lemma exec_frame (s : Rocks) (op : Op) (key : string) :
  key_of op ≠ key ->
  committed (exec s op) !! key = committed s !! key.
Proof.
  intros Hne. destruct op as [k value|k|k|k]; cbn [exec key_of] in *.
  - rewrite run_saveValue.
    destruct (committed s !! k) as [entry|]; cbn [snd committed after_txn].
    + destruct (parseCountAndValue entry) as [[count stored]|c]; [|done].
      destruct (decide (stored ≠ value)); [done|].
      cbn [snd committed after_txn]. by apply lookup_insert_ne.
    + by apply lookup_insert_ne.
  - rewrite run_incrementReference.
    destruct (committed s !! k) as [entry|]; [|done].
    destruct (parseCountAndValue entry) as [[count stored]|c]; [|done].
    cbn [snd committed after_txn]. by apply lookup_insert_ne.
  - rewrite run_deleteStoredValue.
    destruct (committed s !! k) as [entry|]; [|done].
    destruct (parseCountAndValue entry) as [[count stored]|c]; [|done].
    destruct (count <? 2)%Z; cbn [snd committed after_txn].
    + by apply lookup_delete_ne.
    + by apply lookup_insert_ne.
  - rewrite run_getStoredValue.
    destruct (committed s !! k) as [entry|]; [|done].
    by destruct (parseCountAndValue entry) as [[count stored]|c].
Qed.

Lemma exec_local (s s' : Rocks) (op : Op) :
  committed s !! key_of op = committed s' !! key_of op ->
  committed (exec s op) !! key_of op = committed (exec s' op) !! key_of op.
Proof.
  intros Heq. destruct op as [k value|k|k|k]; cbn [exec key_of] in *.
  - rewrite !run_saveValue, <- Heq.
    destruct (committed s !! k) as [entry|] eqn:Hentry.
    + destruct (parseCountAndValue entry) as [[count stored]|c];
        [|cbn [snd]; congruence].
      destruct (decide (stored ≠ value)); [cbn [snd]; congruence|].
      cbn [snd committed after_txn]. by rewrite !lookup_insert_eq.
    + cbn [snd committed after_txn]. by rewrite !lookup_insert_eq.
  - rewrite !run_incrementReference, <- Heq.
    destruct (committed s !! k) as [entry|] eqn:Hentry;
      [|cbn [snd]; congruence].
    destruct (parseCountAndValue entry) as [[count stored]|c];
      [|cbn [snd]; congruence].
    cbn [snd committed after_txn]. by rewrite !lookup_insert_eq.
  - rewrite !run_deleteStoredValue, <- Heq.
    destruct (committed s !! k) as [entry|] eqn:Hentry;
      [|cbn [snd]; congruence].
    destruct (parseCountAndValue entry) as [[count stored]|c];
      [|cbn [snd]; congruence].
    destruct (count <? 2)%Z; cbn [snd committed after_txn].
    + by rewrite !lookup_delete_eq.
    + by rewrite !lookup_insert_eq.
  - rewrite !run_getStoredValue, <- Heq.
    destruct (committed s !! k) as [entry|] eqn:Hentry;
      [|cbn [snd]; congruence].
    destruct (parseCountAndValue entry) as [[count stored]|c];
      cbn [snd]; congruence.
Qed.

Lemma exec_entry_after (s : Rocks) (op : Op) :
  committed (exec s op) !! key_of op
  = entry_after op (committed s !! key_of op).
Proof.
  unfold entry_after. cbv zeta. apply exec_local.
  destruct (committed s !! key_of op) as [entry|]; cbn [committed rocks_new].
  - by rewrite lookup_singleton_eq.
  - by rewrite lookup_empty.
Qed.

Lemma exec_partial_alter (s : Rocks) (op : Op) :
  committed (exec s op)
  = partial_alter (entry_after op) (key_of op) (committed s).
Proof.
  apply map_eq. intros key.
  destruct (decide (key_of op = key)) as [<-|Hne].
  - by rewrite lookup_partial_alter_eq, exec_entry_after.
  - by rewrite lookup_partial_alter_ne, exec_frame.
Qed.
End Locality.

(** X4: a call on one key leaves the record of every other key as it was,
    and a Get of another key answers the same before and after the call. *)
Theorem X4_other_keys_untouched `{Build} (s : Rocks) (op : Op) (key : string) :
  key_of op ≠ key ->
  committed (exec s op) !! key = committed s !! key
  /\ (run rocks (getStoredValue key) (exec s op)).1
     = (run rocks (getStoredValue key) s).1.
Proof.
  intros Hne. pose proof (exec_frame s op key Hne) as Hframe.
  split; [done|]. rewrite !run_getStoredValue, Hframe.
  destruct (committed s !! key) as [entry|]; [|done].
  by destruct (parseCountAndValue entry) as [[count value]|c].
Qed.

Lemma X4_other_keys_untouched_witness :
  let s := rocks_new {[ "a" := serializeCountAndValue 1 "v" ]} in
  committed (exec s (Save "b" "w")) !! "a" = committed s !! "a".
Proof.
  intros s.
  exact (proj1 (X4_other_keys_untouched s (Save "b" "w") "a"
                  ltac:(discriminate))).
Defined.

(** X5: two calls on different keys commute: in either order they leave
    the same records. *)
Theorem X5_different_keys_commute `{Build} (s : Rocks) (op1 op2 : Op) :
  key_of op1 ≠ key_of op2 ->
  committed (exec (exec s op1) op2) = committed (exec (exec s op2) op1).
Proof.
  intros Hne. rewrite !exec_partial_alter. by apply partial_alter_partial_alter_ne.
Qed.

Lemma X5_different_keys_commute_witness :
  committed (exec (exec (rocks_new ∅) (Save "a" "v")) (Delete "b"))
  = committed (exec (exec (rocks_new ∅) (Delete "b")) (Save "a" "v")).
Proof.
  exact (X5_different_keys_commute (rocks_new ∅) (Save "a" "v") (Delete "b")
           ltac:(discriminate)).
Defined.

(** X6: on a key whose record holds [value], Save(key, value) does exactly
    what IncrementReference(key) does: the same result and the same state
    of the engine; below the largest count both return the count raised by
    one. *)
Theorem X6_save_again_is_increment `{Build} (key value entry : string)
    (count : Z) (s : Rocks) :
  committed s !! key = Some entry ->
  parseCountAndValue entry = Returns (count, value) ->
  run rocks (saveValue value key) s = run rocks (incrementReference key) s
  /\ (count < INT_MAX ->
      (run rocks (saveValue value key) s).1
      = Returns (SaveResults.mk (count + 1) kOk key)).
Proof.
  intros Hentry Hparse.
  rewrite run_saveValue, run_incrementReference, Hentry, Hparse.
  rewrite decide_False by (intros Hne; by apply Hne).
  split; [done|]. intros Hlt. cbn [fst].
  pose proof (parse_in_int _ _ _ Hparse) as Hint.
  unfold int_add. rewrite wrap_int_small; [done|].
  unfold in_int, INT_MIN, INT_MAX in *. lia.
Qed.

Lemma X6_save_again_is_increment_witness :
  let s := rocks_new {[ "k" := serializeCountAndValue 1 "v1" ]} in
  run rocks (saveValue "v1" "k") s = run rocks (incrementReference "k") s.
Proof.
  intros s.
  exact (proj1 (X6_save_again_is_increment "k" "v1" _ 1 s eq_refl eq_refl)).
Defined.

(** X7: IncrementReference on a stored record whose count is below the
    largest one returns the count raised by one and stores it with the
    value unchanged: the Get that follows returns (value, count + 1). *)
Theorem X7_increment_reference `{Build} (key value entry : string)
    (count : Z) (s : Rocks) :
  committed s !! key = Some entry ->
  parseCountAndValue entry = Returns (count, value) ->
  count < INT_MAX ->
  let incremented := run rocks (incrementReference key) s in
  incremented.1 = Returns (SaveResults.mk (count + 1) kOk key)
  /\ committed incremented.2
     = <[key := serializeCountAndValue (count + 1) value]> (committed s)
  /\ run rocks (getStoredValue key) incremented.2
     = (Returns (GetResults.mk (count + 1) kOk value), incremented.2).
Proof.
  intros Hentry Hparse Hlt incremented. subst incremented.
  rewrite run_incrementReference, Hentry, Hparse.
  pose proof (parse_in_int _ _ _ Hparse) as Hint.
  assert (in_int (count + 1)) as Hint'
    by (unfold in_int, INT_MIN, INT_MAX in *; lia).
  unfold int_add. rewrite (wrap_int_small _ Hint').
  cbn [fst snd committed after_txn]. split; [done|]. split; [done|].
  rewrite run_getStoredValue. cbn [committed after_txn].
  by rewrite lookup_insert_eq, parse_serialize.
Qed.

Lemma X7_increment_reference_witness :
  let s := rocks_new {[ "k" := serializeCountAndValue 1 "v1" ]} in
  (run rocks (incrementReference "k") s).1
  = Returns (SaveResults.mk 2 kOk "k").
Proof.
  intros s.
  exact (proj1 (X7_increment_reference "k" "v1" _ 1 s eq_refl eq_refl
                  ltac:(unfold INT_MAX; lia))).
Defined.

(** ** Counting references up and down *)

Section Counting.
Context `{Build}.

Lemma exec_adds_reference (key value : string) (count : Z) (s : Rocks)
    (op : Op) :
  adds_reference key value op ->
  committed s !! key = Some (serializeCountAndValue count value) ->
  in_int count -> count < INT_MAX ->
  committed (exec s op) !! key
  = Some (serializeCountAndValue (count + 1) value).
Proof.
  intros Hop Hentry Hint Hlt.
  assert (in_int (count + 1)) as Hint'
    by (unfold in_int, INT_MIN, INT_MAX in *; lia).
  destruct Hop as [-> | ->]; cbn [exec].
  - rewrite run_saveValue, Hentry, parse_serialize by done.
    rewrite decide_False by (intros Hne; by apply Hne).
    cbn [snd committed after_txn]. unfold int_add.
    by rewrite (wrap_int_small _ Hint'), lookup_insert_eq.
  - rewrite run_incrementReference, Hentry, parse_serialize by done.
    cbn [snd committed after_txn]. unfold int_add.
    by rewrite (wrap_int_small _ Hint'), lookup_insert_eq.
Qed.

Lemma exec_all_adds_references (ops : list Op) (key value : string)
    (count : Z) (s : Rocks) :
  Forall (adds_reference key value) ops ->
  committed s !! key = Some (serializeCountAndValue count value) ->
  in_int count -> count + Z.of_nat (length ops) <= INT_MAX ->
  committed (exec_all ops s) !! key
  = Some (serializeCountAndValue (count + Z.of_nat (length ops)) value).
Proof.
  intros Hops. revert count s.
  induction Hops as [|op ops Hop Hops IH]; intros count s Hentry Hint Hlen.
  - cbn. by rewrite Z.add_0_r.
  - cbn [length] in *. rewrite Nat2Z.inj_succ in *.
    change (exec_all (op :: ops) s) with (exec_all ops (exec s op)).
    replace (count + Z.succ (Z.of_nat (length ops)))
      with ((count + 1) + Z.of_nat (length ops)) by lia.
    apply IH; [|unfold in_int, INT_MIN, INT_MAX in *; lia|lia].
    apply exec_adds_reference; [done..|lia].
Qed.

Lemma exec_delete_above_one (key value : string) (count : Z) (s : Rocks) :
  committed s !! key = Some (serializeCountAndValue count value) ->
  in_int count -> 2 <= count ->
  run rocks (deleteStoredValue key) s
  = (Returns (DeleteResults.mk (count - 1) kOk),
     after_txn (<[key := serializeCountAndValue (count - 1) value]>
                  (committed s)) s).
Proof.
  intros Hentry Hint Hge.
  rewrite run_deleteStoredValue, Hentry, parse_serialize by done.
  rewrite (proj2 (Z.ltb_ge count 2)) by done.
  unfold int_sub. rewrite wrap_int_small; [done|].
  unfold in_int, INT_MIN, INT_MAX in *. lia.
Qed.

Lemma exec_all_deletes (n : nat) (key value : string) (count : Z)
    (s : Rocks) :
  committed s !! key = Some (serializeCountAndValue count value) ->
  in_int count -> Z.of_nat n < count ->
  committed (exec_all (replicate n (Delete key)) s) !! key
  = Some (serializeCountAndValue (count - Z.of_nat n) value).
Proof.
  revert count s. induction n as [|n IH]; intros count s Hentry Hint Hlt.
  - cbn. by rewrite Z.sub_0_r.
  - change (exec_all (replicate (S n) (Delete key)) s)
      with (exec_all (replicate n (Delete key)) (exec s (Delete key))).
    rewrite Nat2Z.inj_succ in *.
    replace (count - Z.succ (Z.of_nat n)) with ((count - 1) - Z.of_nat n)
      by lia.
    apply IH; [|unfold in_int, INT_MIN, INT_MAX in *; lia|lia].
    cbn [exec]. rewrite (exec_delete_above_one key value count) by (done || lia).
    cbn [snd committed after_txn]. apply lookup_insert_eq.
Qed.

Lemma exec_all_snoc (ops : list Op) (op : Op) (s : Rocks) :
  exec_all (ops ++ [op]) s = exec (exec_all ops s) op.
Proof. unfold exec_all. apply foldl_snoc. Qed.
End Counting.

(** X8: after a first Save of a key, every further Save of the same value
    and every IncrementReference raises the count by one: after n of them
    (the count staying within the 32-bit int) Get returns the value with
    reference count 1 + n. *)
Theorem X8_references_add_up `{Build} (ops : list Op) (key value : string)
    (s : Rocks) :
  committed s !! key = None ->
  Forall (adds_reference key value) ops ->
  Z.of_nat (length ops) < INT_MAX ->
  (run rocks (getStoredValue key) (exec_all (Save key value :: ops) s)).1
  = Returns (GetResults.mk (1 + Z.of_nat (length ops)) kOk value).
Proof.
  intros Habsent Hops Hlen.
  change (exec_all (Save key value :: ops) s)
    with (exec_all ops (exec s (Save key value))).
  assert (in_int 1) as Hone by (unfold in_int, INT_MIN, INT_MAX; lia).
  assert (in_int (1 + Z.of_nat (length ops))) as Hint
    by (unfold in_int, INT_MIN, INT_MAX in *; lia).
  rewrite run_getStoredValue.
  rewrite (exec_all_adds_references ops key value 1); [| done | | done | lia].
  - by rewrite parse_serialize.
  - cbn [exec]. rewrite run_saveValue, Habsent.
    cbn [snd committed after_txn]. apply lookup_insert_eq.
Qed.

Lemma X8_references_add_up_witness :
  (run rocks (getStoredValue "k")
     (exec_all [Save "k" "v"; Save "k" "v"; IncrementReference "k"]
               (rocks_new ∅))).1
  = Returns (GetResults.mk 3 kOk "v").
Proof.
  apply (X8_references_add_up [Save "k" "v"; IncrementReference "k"] "k" "v"
           (rocks_new ∅)).
  - reflexivity.
  - constructor; [by left|]. constructor; [by right|]. constructor.
  - vm_compute. reflexivity.
Defined.

(** X9: from a record of count n >= 1, the Delete after i earlier ones
    returns n - i - 1 with status ok; the n-th returns 0 and removes the
    record, after which Get and a further Delete fail with NotFound. *)
Theorem X9_references_count_down `{Build} (n : nat) (key value : string)
    (s : Rocks) :
  committed s !! key = Some (serializeCountAndValue (Z.of_nat n) value) ->
  (1 <= n)%nat -> Z.of_nat n <= INT_MAX ->
  (forall i : nat,
     (i < n)%nat ->
     (run rocks (deleteStoredValue key)
        (exec_all (replicate i (Delete key)) s)).1
     = Returns (DeleteResults.mk (Z.of_nat n - Z.of_nat i - 1) kOk))
  /\ committed (exec_all (replicate n (Delete key)) s) !! key = None
  /\ (run rocks (getStoredValue key)
        (exec_all (replicate n (Delete key)) s)).1
     = Returns (GetResults.mk 0 kNotFound "")
  /\ (run rocks (deleteStoredValue key)
        (exec_all (replicate n (Delete key)) s)).1
     = Returns (DeleteResults.mk 0 kNotFound).
Proof.
  intros Hentry Hn Hmax.
  assert (in_int (Z.of_nat n)) as Hint
    by (unfold in_int, INT_MIN, INT_MAX in *; lia).
  assert (forall i : nat,
            (i < n)%nat ->
            run rocks (deleteStoredValue key)
              (exec_all (replicate i (Delete key)) s)
            = let s' := exec_all (replicate i (Delete key)) s in
              if decide (S i = n)
              then (Returns (DeleteResults.mk 0 kOk),
                    after_txn (delete key (committed s')) s')
              else (Returns (DeleteResults.mk (Z.of_nat n - Z.of_nat i - 1) kOk),
                    after_txn
                      (<[key := serializeCountAndValue
                                  (Z.of_nat n - Z.of_nat i - 1) value]>
                         (committed s')) s')) as Hstep.
  { intros i Hi. cbv zeta.
    pose proof (exec_all_deletes i key value (Z.of_nat n) s Hentry Hint
                  ltac:(lia)) as Hleft.
    assert (in_int (Z.of_nat n - Z.of_nat i)) as Hint'
      by (unfold in_int, INT_MIN, INT_MAX in *; lia).
    case_decide as Hlast.
    - rewrite run_deleteStoredValue, Hleft, parse_serialize by done.
      by rewrite (proj2 (Z.ltb_lt (Z.of_nat n - Z.of_nat i) 2)) by lia.
    - rewrite (exec_delete_above_one key value (Z.of_nat n - Z.of_nat i))
        by (done || lia).
      done. }
  assert (committed (exec_all (replicate n (Delete key)) s) !! key = None)
    as Hgone.
  { destruct n as [|m]; [lia|].
    rewrite replicate_S_end, exec_all_snoc. cbn [exec].
    rewrite (Hstep m) by lia. cbv zeta. rewrite decide_True by done.
    cbn [snd committed after_txn]. apply lookup_delete_eq. }
  split.
  - intros i Hi. rewrite (Hstep i Hi). cbv zeta.
    case_decide as Hlast; cbn [fst]; [|done].
    do 2 f_equal. lia.
  - split; [done|].
    by rewrite run_getStoredValue, run_deleteStoredValue, Hgone.
Qed.

Lemma X9_references_count_down_witness :
  let s := rocks_new {[ "k" := serializeCountAndValue 2 "v" ]} in
  committed (exec_all [Delete "k"; Delete "k"] s) !! "k" = None.
Proof.
  intros s.
  exact (proj1 (proj2 (X9_references_count_down 2 "k" "v" s eq_refl
                         ltac:(lia) ltac:(vm_compute; discriminate)))).
Defined.

(** ** What the calls do to the engine *)

(** X10: Get only reads.  Whatever the engine answers, it makes exactly one
    call, the [Get] of the key, and begins no transaction; on the engine
    that does not fail it leaves the state as it was, its status is ok or
    NotFound, and it is NotFound exactly when the key has no record. *)
Theorem X10_get_reads_only `{Build} {S : Type} (h : Handler S) (key : string)
    (s : S) (r : Rocks) :
  trace h (getStoredValue key) s = [EGet key]
  /\ (run rocks (getStoredValue key) r).2 = r
  /\ (forall results,
        (run rocks (getStoredValue key) r).1 = Returns results ->
        (GetResults.status results = kOk
         \/ GetResults.status results = kNotFound)
        /\ (GetResults.status results = kNotFound
            <-> committed r !! key = None)).
Proof.
  split; [apply trace_getStoredValue|].
  rewrite run_getStoredValue.
  destruct (committed r !! key) as [entry|].
  - destruct (parseCountAndValue entry) as [[count value]|c]; cbn [fst snd].
    + split; [done|]. intros results [= <-]. cbn. split; [by left|done].
    + split; [done|]. by intros results.
  - split; [done|]. intros results [= <-]. cbn. split; [by right|done].
Qed.

Section Transactions.
Context `{Build}.

Lemma open_txns_after_txn (db : gmap string string) (s : Rocks) :
  open_txns s = ∅ -> open_txns (after_txn db s) = ∅.
Proof.
  intros Hs. cbn [open_txns after_txn].
  by rewrite Hs, delete_insert_eq, delete_empty.
Qed.

Lemma exec_open_txns (s : Rocks) (op : Op) :
  open_txns s = ∅ -> open_txns (exec s op) = ∅.
Proof.
  intros Hs. destruct op as [k value|k|k|k]; cbn [exec].
  - rewrite run_saveValue.
    destruct (committed s !! k) as [entry|]; cbn [snd];
      [|by apply open_txns_after_txn].
    destruct (parseCountAndValue entry) as [[count stored]|c]; [|done].
    destruct (decide (stored ≠ value)); [done|].
    by apply open_txns_after_txn.
  - rewrite run_incrementReference.
    destruct (committed s !! k) as [entry|]; [|done].
    destruct (parseCountAndValue entry) as [[count stored]|c]; [|done].
    by apply open_txns_after_txn.
  - rewrite run_deleteStoredValue.
    destruct (committed s !! k) as [entry|]; [|done].
    destruct (parseCountAndValue entry) as [[count stored]|c]; [|done].
    destruct (count <? 2)%Z; by apply open_txns_after_txn.
  - rewrite run_getStoredValue.
    destruct (committed s !! k) as [entry|]; [|done].
    by destruct (parseCountAndValue entry) as [[count stored]|c].
Qed.

End Transactions.

(** X11: no call leaves a transaction behind: on the engine that does not
    fail, after any sequence of Save, IncrementReference, Delete and Get no
    transaction object is alive. *)
Theorem X11_no_transaction_left `{Build} (ops : list Op)
    (db : gmap string string) :
  open_txns (exec_all ops (rocks_new db)) = ∅.
Proof.
  assert (forall s, open_txns s = ∅ -> open_txns (exec_all ops s) = ∅) as Hall.
  { induction ops as [|op ops IH]; intros s Hs; [done|].
    change (exec_all (op :: ops) s) with (exec_all ops (exec s op)).
    by apply IH, exec_open_txns. }
  by apply Hall.
Qed.

(** X12: in a build without assertions, once the engine has handed out a
    transaction the helper that writes makes all of its calls whatever
    the engine answers: the Put (or Delete), then the Commit even when the
    Put failed, then the release of the transaction object. *)
Theorem X12_commit_after_failed_put `{Build} {S : Type} (h : Handler S)
    (key value : string) (t : Txn) (s s1 : S) :
  NDEBUG = true ->
  h _ BeginTransaction s = (Some t, s1) ->
  trace h (saveValueToDb value key) s
    = [EBegin; EPut t key value; ECommit t; EFree t]
  /\ trace h (deleteValueFromDb key) s
     = [EBegin; EDelete t key; ECommit t; EFree t].
Proof.
  intros Hndebug Hbegin.
  unfold saveValueToDb, deleteValueFromDb, getTransaction, call, assert.
  rewrite Hndebug. cbn. rewrite Hbegin. cbn. split.
  - destruct (h _ (TxnPut t key value) s1) as [pst s2]. cbn.
    destruct (h _ (TxnCommit t) s2) as [cst s3]. cbn.
    by destruct (h _ (TxnFree t) s3).
  - destruct (h _ (TxnDelete t key) s1) as [pst s2]. cbn.
    destruct (h _ (TxnCommit t) s2) as [cst s3]. cbn.
    by destruct (h _ (TxnFree t) s3).
Qed.

Lemma X12_commit_after_failed_put_witness :
  (io_error_engine _ (TxnPut 0%nat "k" "v") tt).1 = kIOError
  /\ trace io_error_engine (saveValueToDb "v" "k") tt
     = [EBegin; EPut 0%nat "k" "v"; ECommit 0%nat; EFree 0%nat].
Proof.
  split; [reflexivity|].
  exact (proj1 (X12_commit_after_failed_put io_error_engine "k" "v" 0%nat
                  tt tt eq_refl eq_refl)).
Defined.

(** ** A store opened again *)

Lemma CheckpointStorage_new_opens (path : string) (disk : Disk) :
  CheckpointStorage_new path disk
  = (mkCheckpointStorage (Some (rocks_new (default ∅ (disk !! path)))) path,
     <[path := default ∅ (disk !! path)]> disk).
Proof.
  unfold CheckpointStorage_new, TransactionDB_Open. cbv zeta.
  destruct (disk !! path) as [db|] eqn:Hdb; cbn [default]; [|done].
  by rewrite insert_id.
Qed.

Lemma method_open {R : Type} (p : Prog R) (db : Rocks) (path : string) :
  method p (mkCheckpointStorage (Some db) path)
  = ((run rocks p db).1, mkCheckpointStorage (Some (run rocks p db).2) path).
Proof. unfold method. cbn. by destruct (run rocks p db). Qed.

(** X13: nothing outlives a store.  Whatever a store did while it was open,
    and whatever database its path held before, once the store is
    destroyed a new store opened at the same path finds no record: every
    Get fails with NotFound. *)
Theorem X13_reopened_store_is_empty `{Build} {R : Type} (p : Prog R)
    (path key : string) (disk : Disk) :
  let opened := CheckpointStorage_new path disk in
  let used := method p opened.1 in
  exists disk1,
    CheckpointStorage_delete used.2 opened.2 = Returns disk1
    /\ disk1 !! path = None
    /\ (method (getStoredValue key) (CheckpointStorage_new path disk1).1).1
       = Returns (GetResults.mk 0 kNotFound "").
Proof.
  intros opened used. subst opened used.
  rewrite CheckpointStorage_new_opens. cbn [fst snd].
  rewrite method_open. cbn [fst snd].
  exists (delete path (<[path := default ∅ (disk !! path)]> disk)).
  split; [by erewrite CheckpointStorage_delete_destroys|].
  split; [apply lookup_delete_eq|].
  rewrite CheckpointStorage_new_opens, lookup_delete_eq.
  cbn [fst default]. rewrite method_open. cbn [fst].
  rewrite run_getStoredValue. cbn [fst committed rocks_new].
  by rewrite lookup_empty.
Qed.

(** ** What the calls report, whatever the engine *)

Section Reports.
Context `{Build} {S : Type} (h : Handler S).

Lemma saveValueWithRefCount_reports (count : Z) (key value : string)
    (s s' : S) (r : SaveResults) :
  run h (saveValueWithRefCount count key value) s = (Returns r, s') ->
  SaveResults.storage_key r = key
  /\ ((ok (SaveResults.status r) = true
       /\ SaveResults.reference_count r = count)
      \/ (SaveResults.status r = kNotFound
          /\ SaveResults.reference_count r = 0)).
Proof.
  unfold saveValueWithRefCount. cbv zeta. rewrite run_bind.
  destruct (run h (saveValueToDb _ key) s) as [[st|c] s1]; [|done].
  destruct (ok st) eqn:Hok; cbn [run]; intros [= <- _]; cbn.
  - split; [done|]. by left.
  - split; [done|]. by right.
Qed.

Lemma getStoredValue_reports (key : string) (s s' : S) (r : GetResults) :
  run h (getStoredValue key) s = (Returns r, s') ->
  ok (GetResults.status r) = true
  \/ (GetResults.status r = kNotFound
      /\ GetResults.reference_count r = 0
      /\ GetResults.stored_value r = "").
Proof.
  unfold getStoredValue, call. cbn.
  destruct (h _ (DbGet key) s) as [[st v] s1]. cbn.
  destruct (ok st) eqn:Hok.
  - destruct (parseCountAndValue v) as [[count value]|c]; cbn; [|done].
    intros [= <- _]. by left.
  - cbn. intros [= <- _]. by right.
Qed.
End Reports.

(** X14: no call of Get, IncrementReference or Save ever reports an engine
    error of its own kind.  Whatever the engine answers, a call that
    returns carries status ok, or NotFound with count 0, or (Save only)
    InvalidArgument with count -1; and a result of Save or
    IncrementReference always carries the key it was called with. *)
Theorem X14_reported_statuses `{Build} {S : Type} (h : Handler S)
    (key value : string) (s : S) :
  (forall r s',
     run h (getStoredValue key) s = (Returns r, s') ->
     ok (GetResults.status r) = true
     \/ (GetResults.status r = kNotFound
         /\ GetResults.reference_count r = 0
         /\ GetResults.stored_value r = ""))
  /\ (forall r s',
       run h (incrementReference key) s = (Returns r, s') ->
       SaveResults.storage_key r = key
       /\ (ok (SaveResults.status r) = true
           \/ (SaveResults.status r = kNotFound
               /\ SaveResults.reference_count r = 0)))
  /\ (forall r s',
       run h (saveValue value key) s = (Returns r, s') ->
       SaveResults.storage_key r = key
       /\ (ok (SaveResults.status r) = true
           \/ (SaveResults.status r = kNotFound
               /\ SaveResults.reference_count r = 0)
           \/ (SaveResults.status r = kInvalidArgument
               /\ SaveResults.reference_count r = -1))).
Proof.
  split; [intros r s'; apply getStoredValue_reports|]. split.
  - intros r s'. unfold incrementReference. rewrite run_bind.
    destruct (run h (getStoredValue key) s) as [[g|c] s1] eqn:Hget; [|done].
    destruct (getStoredValue_reports h key s s1 g Hget)
      as [Hok|(Hst & Hcount & Hvalue)].
    + rewrite Hok. intros Hsave.
      destruct (saveValueWithRefCount_reports h _ _ _ _ _ _ Hsave)
        as (Hkey & [[Hok' _]|Hnf]); split; auto.
    + rewrite Hst. cbn. intros [= <- _]. cbn. split; [done|]. by right.
  - intros r s'. unfold saveValue. rewrite run_bind.
    destruct (run h (getStoredValue key) s) as [[g|c] s1] eqn:Hget; [|done].
    assert (forall count,
              run h (saveValueWithRefCount count key value) s1
              = (Returns r, s') ->
              SaveResults.storage_key r = key
              /\ (ok (SaveResults.status r) = true
                  \/ (SaveResults.status r = kNotFound
                      /\ SaveResults.reference_count r = 0)
                  \/ (SaveResults.status r = kInvalidArgument
                      /\ SaveResults.reference_count r = -1))) as Hsaved.
    { intros count Hsave.
      destruct (saveValueWithRefCount_reports h _ _ _ _ _ _ Hsave)
        as (Hkey & [[Hok' _]|Hnf]); split; auto. }
    destruct (ok (GetResults.status g)); [|apply Hsaved].
    destruct (decide (GetResults.stored_value g ≠ value)); [|apply Hsaved].
    cbn. intros [= <- _]. cbn. split; [done|]. right. by right.
Qed.

(** X15: when Delete finds a count of 2 or more and the engine hands out
    a transaction, then in a build without assertions Delete returns the
    lowered count whatever the engine answers to the Put and to the
    Commit: with status NotFound when the Commit fails (the lowered count
    was not written), and with the ok status of the Commit otherwise, also
    when the Put had failed.  With assertions compiled in, a failed Put or
    Commit aborts the process instead. *)
Theorem X15_delete_reports_unwritten_count `{Build} {S : Type}
    (h : Handler S) (key entry stored : string) (count : Z) (t : Txn)
    (pst cst : Status) (s s1 s2 s3 s4 : S) :
  h _ (DbGet key) s = ((kOk, entry), s1) ->
  parseCountAndValue entry = Returns (count, stored) ->
  2 <= count ->
  h _ BeginTransaction s1 = (Some t, s2) ->
  h _ (TxnPut t key (serializeCountAndValue (count - 1) stored)) s2
    = (pst, s3) ->
  h _ (TxnCommit t) s3 = (cst, s4) ->
  run h (deleteStoredValue key) s
  = let released := (h _ (TxnFree t) s4).2 in
    let reported :=
      DeleteResults.mk (count - 1) (if ok cst then cst else kNotFound) in
    if NDEBUG then (Returns reported, released)
    else if ok pst
         then if ok cst then (Returns reported, released)
              else (Crashes AssertionFailed, s4)
         else (Crashes AssertionFailed, s3).
Proof.
  intros Hget Hparse Hge Hbegin Hput Hcommit.
  rewrite (run_deleteStoredValue_lowered _ _ _ _ _ _ _ Hget Hparse Hge).
  rewrite (run_saveValueWithRefCount_calls _ _ _ _ _ _ _ _ _ _ _
             Hbegin Hput Hcommit).
  cbv zeta. by destruct NDEBUG, (ok pst), (ok cst).
Qed.

Lemma X15_delete_reports_unwritten_count_witness :
  run (commit_failing_engine (serializeCountAndValue 2 "v"))
      (deleteStoredValue "k") tt
  = (Returns (DeleteResults.mk 1 kNotFound), tt).
Proof.
  assert (parseCountAndValue (serializeCountAndValue 2 "v") = Returns (2, "v"))
    as Hparse by reflexivity.
  exact (X15_delete_reports_unwritten_count
           (commit_failing_engine (serializeCountAndValue 2 "v"))
           "k" _ "v" 2 0%nat kOk kIOError tt tt tt tt tt
           eq_refl Hparse ltac:(lia) eq_refl eq_refl eq_refl).
Defined.

Lemma X14_reported_statuses_witness :
  exists r,
    run io_error_engine (incrementReference "k") tt = (Returns r, tt)
    /\ SaveResults.storage_key r = "k"
    /\ SaveResults.status r = kNotFound.
Proof.
  exists (SaveResults.mk 0 kNotFound "k"). split; [reflexivity|].
  destruct (proj1 (proj2 (X14_reported_statuses io_error_engine "k" "v" tt))
              (SaveResults.mk 0 kNotFound "k") tt eq_refl)
    as (Hkey & [Hok|[Hst _]]); [discriminate Hok|by split].
Defined.

Lemma X10_get_reads_only_witness :
  let r := rocks_new {[ "k" := serializeCountAndValue 1 "v" ]} in
  (run rocks (getStoredValue "k") r).2 = r
  /\ (run rocks (getStoredValue "absent") r).1
     = Returns (GetResults.mk 0 kNotFound "").
Proof.
  intros r. split.
  - exact (proj1 (proj2 (X10_get_reads_only rocks "k" r r))).
  - pose proof (proj2 (proj2 (X10_get_reads_only rocks "absent" r r))
                  (GetResults.mk 0 kNotFound "") eq_refl) as [_ Hiff].
    reflexivity.
Defined.

(** ** Stores the code wrote itself *)

Section SelfWritten.
Context `{Build}.

Lemma well_formed_insert (count : Z) (key value : string)
    (db : gmap string string) :
  in_int count -> well_formed db ->
  well_formed (<[key := serializeCountAndValue count value]> db).
Proof.
  intros Hint Hdb key' entry. rewrite lookup_insert.
  case_decide; [|by apply Hdb].
  intros [= <-]. by exists count, value.
Qed.

Lemma well_formed_delete (key : string) (db : gmap string string) :
  well_formed db -> well_formed (delete key db).
Proof.
  intros Hdb key' entry. rewrite lookup_delete.
  case_decide; [done|by apply Hdb].
Qed.

Lemma exec_well_formed (s : Rocks) (op : Op) :
  well_formed (committed s) ->
  well_formed (committed (exec s op)) /\ exec_crashes s op = false.
Proof.
  intros Hdb.
  assert (in_int 1) as Hone by (unfold in_int, INT_MIN, INT_MAX; lia).
  destruct op as [key value|key|key|key]; cbn [exec exec_crashes].
  - rewrite run_saveValue.
    destruct (committed s !! key) as [entry|] eqn:Hentry.
    + destruct (Hdb key entry Hentry) as (count & stored & -> & Hint).
      rewrite parse_serialize by done.
      destruct (decide (stored ≠ value)); [done|].
      cbn [fst snd committed after_txn crashed]. split; [|done].
      apply well_formed_insert; [apply wrap_int_range|done].
    + cbn [fst snd committed after_txn crashed]. split; [|done].
      by apply well_formed_insert.
  - rewrite run_incrementReference.
    destruct (committed s !! key) as [entry|] eqn:Hentry; [|done].
    destruct (Hdb key entry Hentry) as (count & stored & -> & Hint).
    rewrite parse_serialize by done.
    cbn [fst snd committed after_txn crashed]. split; [|done].
    apply well_formed_insert; [apply wrap_int_range|done].
  - rewrite run_deleteStoredValue.
    destruct (committed s !! key) as [entry|] eqn:Hentry; [|done].
    destruct (Hdb key entry Hentry) as (count & stored & -> & Hint).
    rewrite parse_serialize by done.
    destruct (count <? 2)%Z; cbn [fst snd committed after_txn crashed];
      (split; [|done]).
    + by apply well_formed_delete.
    + apply well_formed_insert; [apply wrap_int_range|done].
  - rewrite run_getStoredValue.
    destruct (committed s !! key) as [entry|] eqn:Hentry; [|done].
    destruct (Hdb key entry Hentry) as (count & stored & -> & Hint).
    by rewrite parse_serialize by done.
Qed.

Lemma exec_all_well_formed (ops : list Op) (s : Rocks) :
  well_formed (committed s) -> well_formed (committed (exec_all ops s)).
Proof.
  revert s. induction ops as [|op ops IH]; intros s Hs; [done|].
  change (exec_all (op :: ops) s) with (exec_all ops (exec s op)).
  by apply IH, exec_well_formed.
Qed.
End SelfWritten.

(** X16: on a store that started empty and was written by these calls
    alone, no call ever crashes, however long the sequence of calls: every
    record it reads is one it serialized, of at least four bytes, so the
    parse never runs past the string and [substr] never throws. *)
Theorem X16_no_crash_on_own_records `{Build} (ops : list Op) (op : Op) :
  exec_crashes (exec_all ops (rocks_new ∅)) op = false
  /\ well_formed (committed (exec_all ops (rocks_new ∅)))
  /\ (forall key entry,
        committed (exec_all ops (rocks_new ∅)) !! key = Some entry ->
        (4 <= String.length entry)%nat).
Proof.
  assert (well_formed (committed (exec_all ops (rocks_new ∅)))) as Hwf.
  { apply exec_all_well_formed. intros key entry. cbn [committed rocks_new].
    by rewrite lookup_empty. }
  split; [by apply exec_well_formed|]. split; [done|].
  intros key entry Hentry.
  destruct (Hwf key entry Hentry) as (count & value & -> & _).
  unfold serializeCountAndValue, insert_begin.
  rewrite length_string_app, length_string_of_list_ascii, length_int_to_mem.
  lia.
Qed.

(** X17: the value under a key is fixed for as long as the record exists.
    If a key holds a record with some value, then after any one call the
    key either has no record or a record with that same value. *)
Theorem X17_value_never_changes `{Build} (key entry value : string)
    (count : Z) (s : Rocks) (op : Op) :
  committed s !! key = Some entry ->
  parseCountAndValue entry = Returns (count, value) ->
  committed (exec s op) !! key = None
  \/ exists entry' count',
       committed (exec s op) !! key = Some entry'
       /\ parseCountAndValue entry' = Returns (count', value).
Proof.
  intros Hentry Hparse.
  destruct (decide (key_of op = key)) as [Hkey|Hne].
  - destruct op as [k v|k|k|k]; cbn [key_of] in Hkey; subst k; cbn [exec].
    + rewrite run_saveValue, Hentry, Hparse.
      destruct (decide (value ≠ v)) as [Hv|Hv]; cbn [snd]; [by eauto|].
      assert (v = value) as -> by (by destruct (decide (v = value)); [|exfalso; auto]).
      cbn [committed after_txn]. rewrite lookup_insert_eq. right.
      eexists _, _. split; [done|].
      apply parse_serialize, wrap_int_range.
    + rewrite run_incrementReference, Hentry, Hparse.
      cbn [snd committed after_txn]. rewrite lookup_insert_eq. right.
      eexists _, _. split; [done|].
      apply parse_serialize, wrap_int_range.
    + rewrite run_deleteStoredValue, Hentry, Hparse.
      destruct (count <? 2)%Z; cbn [snd committed after_txn].
      * left. apply lookup_delete_eq.
      * rewrite lookup_insert_eq. right. eexists _, _. split; [done|].
        apply parse_serialize, wrap_int_range.
    + rewrite run_getStoredValue, Hentry, Hparse. by eauto.
  - rewrite (exec_frame s op key Hne). by eauto.
Qed.

Lemma X17_value_never_changes_witness :
  let s := rocks_new {[ "k" := serializeCountAndValue 1 "v1" ]} in
  committed (exec s (Save "k" "v2")) !! "k" = None
  \/ exists entry' count',
       committed (exec s (Save "k" "v2")) !! "k" = Some entry'
       /\ parseCountAndValue entry' = Returns (count', "v1").
Proof.
  intros s.
  exact (X17_value_never_changes "k" _ "v1" 1 s (Save "k" "v2")
           eq_refl eq_refl).
Defined.

(** X18: a Save undone by a Delete leaves the records as they were, both
    when the Save created the record and when it added a reference to an
    existing record of that value whose count is at least 1 and below the
    largest one. *)
Theorem X18_delete_undoes_save `{Build} (key value : string) (s : Rocks) :
  (committed s !! key = None ->
   committed (exec (exec s (Save key value)) (Delete key)) = committed s)
  /\ (forall count,
        committed s !! key = Some (serializeCountAndValue count value) ->
        1 <= count < INT_MAX ->
        committed (exec (exec s (Save key value)) (Delete key))
        = committed s).
Proof.
  assert (in_int 1) as Hone by (unfold in_int, INT_MIN, INT_MAX; lia).
  split.
  - intros Habsent. cbn [exec].
    rewrite run_saveValue, Habsent. cbn [snd].
    rewrite run_deleteStoredValue. cbn [committed after_txn].
    rewrite lookup_insert_eq, parse_serialize by done.
    cbn [Z.ltb Z.compare snd committed after_txn].
    by apply delete_insert_id.
  - intros count Hentry Hcount. cbn [exec].
    assert (in_int count /\ in_int (count + 1)) as [Hint Hint']
      by (unfold in_int, INT_MIN, INT_MAX in *; lia).
    rewrite run_saveValue, Hentry, parse_serialize by done.
    rewrite decide_False by (intros Hne; by apply Hne).
    unfold int_add. rewrite (wrap_int_small _ Hint'). cbn [snd].
    rewrite run_deleteStoredValue. cbn [committed after_txn].
    rewrite lookup_insert_eq, parse_serialize by done.
    rewrite (proj2 (Z.ltb_ge (count + 1) 2)) by lia.
    cbn [snd committed after_txn].
    unfold int_sub. replace (count + 1 - 1) with count by lia.
    rewrite (wrap_int_small _ Hint), insert_insert_eq.
    by apply insert_id.
Qed.

Lemma X18_delete_undoes_save_witness :
  let s := rocks_new {[ "k" := serializeCountAndValue 1 "v" ]} in
  committed (exec (exec (rocks_new ∅) (Save "k" "v")) (Delete "k"))
  = committed (rocks_new ∅)
  /\ committed (exec (exec s (Save "k" "v")) (Delete "k")) = committed s.
Proof.
  intros s. split.
  - exact (proj1 (X18_delete_undoes_save "k" "v" (rocks_new ∅)) eq_refl).
  - exact (proj2 (X18_delete_undoes_save "k" "v" s) 1 eq_refl
             ltac:(unfold INT_MAX; lia)).
Defined.
